(** * Explorer Shell: a shallow embedding of [main.cpp]

    The program is an interactive loop over [std::filesystem] that keeps a
    [std::map<std::string, std::string>] of fabricated permission strings and
    rewrites it to [.permissions.txt] after every mutation.

    Modelling conventions
    - [std::string] is [string]; [char] is [ascii]; [int] is [Z].
    - [std::map<std::string, std::string>] is [gmap string string]; iteration
      order (ascending keys) is made explicit where the code iterates.
    - The globals, the directory tree and [std::cout] are the fields of one
      record [world]; every function of the source is a computation in the
      monad [M], which threads the world and records the two ways a call can
      fail to return: a [filesystem_error] in flight, and an out-of-range
      [operator[]] on a [std::string].
    - [std::filesystem] is modelled by a finite map from path strings to
      nodes. Paths are taken verbatim and name a file by their spelling
      (no [.] or [..] components, no doubled or trailing slashes, no links);
      [d/x] lies inside directory [d]. *)

From stdpp Require Import gmap strings list fin_maps sorting.
From Stdlib Require Import ZArith Ascii String.

Local Open Scope string_scope.

(** ** Characters and strings *)

Definition nl : string := String "010" "".
Definition esc : ascii := ascii_of_nat 27.

(** Colour codes, lines 13-17. *)
Definition RESET  : string := String esc "[0m".
Definition RED    : string := String esc "[31m".
Definition GREEN  : string := String esc "[32m".
Definition YELLOW : string := String esc "[33m".
Definition BLUE   : string := String esc "[34m".

(** [std::isspace] in the "C" locale: space and the controls 9..13. *)
Definition isspace (c : ascii) : bool :=
  let n := nat_of_ascii c in
  Nat.eqb n 32 || (Nat.leb 9 n && Nat.leb n 13).

(** [s[i]] on a [std::string]: the character at [i] when [i < s.size()], the
    null character when [i == s.size()], and undefined beyond that. *)
Definition string_at (s : string) (i : nat) : option ascii :=
  match String.get i s with
  | Some c => Some c
  | None => if Nat.eqb i (String.length s) then Some zero else None
  end.

(** [s.find(c) != std::string::npos] *)
Fixpoint contains (c : ascii) (s : string) : bool :=
  match s with
  | EmptyString => false
  | String x s' => Ascii.eqb x c || contains c s'
  end.

Fixpoint drop_chars (n : nat) (s : string) : string :=
  match n, s with
  | S n', String _ s' => drop_chars n' s'
  | _, _ => s
  end.

(** ** Formatted extraction, [stream >> str]

    The unread part of the stream is a [string]. An extraction first skips
    leading whitespace, then takes characters up to the next whitespace or
    the end; taking nothing sets the fail bit, modelled by [None]. *)

Fixpoint skipws (s : string) : string :=
  match s with
  | EmptyString => EmptyString
  | String c s' => if isspace c then skipws s' else s
  end.

Fixpoint word (s : string) : string * string :=
  match s with
  | EmptyString => (EmptyString, EmptyString)
  | String c s' =>
      if isspace c then (EmptyString, s)
      else let (t, r) := word s' in (String c t, r)
  end.

Definition extract (s : string) : option (string * string) :=
  match word (skipws s) with
  | (EmptyString, _) => None
  | (t, r) => Some (t, r)
  end.

(** ** The permission store on its own: lines 24-49 *)

Definition PERM_FILE : string := ".permissions.txt".
Definition FALLBACK : string := "-rw-r--r--".

(** [permissions[k]] read as a value: a missing key is first inserted with
    the empty string. *)
Definition subscript (k : string) (m : gmap string string)
  : string * gmap string string :=
  match m !! k with
  | Some v => (v, m)
  | None => (EmptyString, <[k := EmptyString]> m)
  end.

(** [permissions.count(k)] as a condition *)
Definition count (k : string) (m : gmap string string) : bool :=
  bool_decide (is_Some (m !! k)).

(** Lines 46-49. *)
Definition getPermission (file : string) (m : gmap string string)
  : string * gmap string string :=
  if count file m then subscript file m else (FALLBACK, m).

(** The entries as [for (auto &p : permissions)] visits them: ascending in
    the key, compared byte by byte. *)
Definition key_le (p q : string * string) : Prop := String.leb p.1 q.1 = true.

#[global] Instance key_le_dec p q : Decision (key_le p q).
Proof. unfold key_le. apply _. Defined.

Definition entries (m : gmap string string) : list (string * string) :=
  merge_sort key_le (map_to_list m).

(** Lines 41-42: the text written for a sequence of entries. *)
Fixpoint render (l : list (string * string)) : string :=
  match l with
  | [] => EmptyString
  | (k, v) :: l' => k +:+ " " +:+ v +:+ nl +:+ render l'
  end.

Definition save_text (m : gmap string string) : string := render (entries m).

(** Lines 34-35: [while (fin >> file >> perm) permissions[file] = perm;].
    Each turn consumes at least two characters, so the length of the text
    bounds the number of turns. *)
Fixpoint load_loop (fuel : nat) (s : string) (m : gmap string string)
  : gmap string string :=
  match fuel with
  | O => m
  | S fuel' =>
      match extract s with
      | None => m
      | Some (file, s1) =>
          match extract s1 with
          | None => m
          | Some (perm, s2) => load_loop fuel' s2 (<[file := perm]> m)
          end
      end
  end.

Definition load_text (s : string) (m : gmap string string)
  : gmap string string :=
  load_loop (String.length s) s m.

(** ** The directory tree behind [std::filesystem] *)

Inductive node : Type :=
| File (content : string)
| Dir.

#[global] Instance node_eq_dec : EqDecision node.
Proof. solve_decision. Defined.

Module Fs.

(** [q] lies somewhere below directory [d]. *)
Definition inside (d q : string) : bool := String.prefix (d +:+ "/") q.

Definition below (d : string) (t : gmap string node) : gmap string node :=
  filter (λ kv, inside d kv.1 = true) t.

Definition populated (d : string) (t : gmap string node) : bool :=
  negb (bool_decide (below d t = ∅)).

(** The path up to its last slash; [None] for an entry of the working
    directory. *)
Fixpoint parent (p : string) : option string :=
  match p with
  | EmptyString => None
  | String c p' =>
      match parent p' with
      | Some d => Some (String c d)
      | None => if Ascii.eqb c "/" then Some EmptyString else None
      end
  end.

(** [path::filename()] *)
Definition filename (p : string) : string :=
  match parent p with
  | None => p
  | Some d => drop_chars (S (String.length d)) p
  end.

Definition exists_ (t : gmap string node) (p : string) : bool :=
  bool_decide (is_Some (t !! p)).

Definition is_directory (t : gmap string node) (p : string) : bool :=
  match t !! p with Some Dir => true | _ => false end.

(** A new entry [p] can be made: the name is not empty and the directory
    it goes into is there. *)
Definition creatable (t : gmap string node) (p : string) : bool :=
  negb (String.eqb p EmptyString) &&
  match parent p with
  | None => true
  | Some d => is_directory t d
  end.

(** The operations below are the throwing overloads; [None] stands for a
    [filesystem_error]. *)

Definition is_empty (t : gmap string node) (p : string) : option bool :=
  match t !! p with
  | Some Dir => Some (negb (populated p t))
  | Some (File s) => Some (String.eqb s EmptyString)
  | None => None
  end.

(** [remove]: false for a missing path; a directory goes only if empty. *)
Definition remove (t : gmap string node) (p : string)
  : option (bool * gmap string node) :=
  match t !! p with
  | None => Some (false, t)
  | Some (File _) => Some (true, delete p t)
  | Some Dir => if populated p t then None else Some (true, delete p t)
  end.

(** [create_directory]: false, and no error, when the directory is
    already there. *)
Definition create_directory (t : gmap string node) (p : string)
  : option (bool * gmap string node) :=
  match t !! p with
  | Some Dir => Some (false, t)
  | Some (File _) => None
  | None => if creatable t p then Some (true, <[p := Dir]> t) else None
  end.

(** [copy_file(from, to, copy_options::overwrite_existing)] *)
Definition copy_file (t : gmap string node) (from to : string)
  : option (gmap string node) :=
  match t !! from with
  | Some (File s) =>
      match t !! to with
      | Some Dir => None
      | Some (File _) =>
          if String.eqb from to then None else Some (<[to := File s]> t)
      | None => if creatable t to then Some (<[to := File s]> t) else None
      end
  | _ => None
  end.

(** Where an entry at or below [from] ends up when [from] becomes [to]. *)
Definition rekey (from to k : string) : string :=
  if String.eqb k from || inside from k
  then to +:+ drop_chars (String.length from) k
  else k.

Definition moved (from to : string) (t : gmap string node)
  : gmap string node :=
  list_to_map (prod_map (rekey from to) id <$> map_to_list t).

(** [rename], with the rules of POSIX [rename(2)]. *)
Definition rename (t : gmap string node) (from to : string)
  : option (gmap string node) :=
  match t !! from with
  | None => None
  | Some n =>
      if String.eqb from to then Some t
      else if inside from to then None
      else
        match n, t !! to with
        | File _, Some Dir => None
        | File s, Some (File _) => Some (<[to := File s]> (delete from t))
        | File s, None =>
            if creatable t to then Some (<[to := File s]> (delete from t))
            else None
        | Dir, Some (File _) => None
        | Dir, Some Dir =>
            if populated to t then None
            else Some (moved from to (delete to t))
        | Dir, None =>
            if creatable t to then Some (moved from to t) else None
        end
  end.

(** The names [directory_iterator(current_path())] yields: the entries of
    the working directory itself, each once. The library does not specify
    their order; the order in which the tree enumerates them stands for it
    and no statement depends on it. *)
Definition top_level (t : gmap string node) : list string :=
  filter (λ k, k ≠ EmptyString ∧ parent k = None) (map_to_list t).*1.

(** [std::ifstream fin(p)]: the text to read, or [None] when the stream
    is not good after opening. A directory gives nothing to read. *)
Definition open_in (t : gmap string node) (p : string) : option string :=
  match t !! p with
  | Some (File s) => Some s
  | Some Dir => Some EmptyString
  | None => None
  end.

(** [std::ofstream fout(p); fout << s; fout.close()]: creates or
    truncates the file; on a directory the stream fails to open and the
    writes are lost. *)
Definition write_out (t : gmap string node) (p s : string)
  : gmap string node :=
  match t !! p with
  | Some Dir => t
  | _ => <[p := File s]> t
  end.

End Fs.

(** ** Program state and the monad of its functions *)

Record world : Type := World {
  sudoMode : bool;                      (* line 23 *)
  permissions : gmap string string;     (* line 24 *)
  disk : gmap string node;              (* the working directory's tree *)
  cwd : string;                         (* fs::current_path() *)
  stdout : string;                      (* everything sent to std::cout *)
}.

Definition currentUser : string := "user".   (* line 22, never assigned *)

Inductive result (A : Type) : Type :=
| Ok (a : A) (w : world)     (* returned normally *)
| Throw (w : world)          (* a filesystem_error is propagating *)
| Undefined.                 (* the language gives the run no meaning *)

Arguments Ok {A} a w.
Arguments Throw {A} w.
Arguments Undefined {A}.

Definition M (A : Type) : Type := world → result A.

#[global] Instance M_ret : MRet M := λ A a w, Ok a w.

#[global] Instance M_bind : MBind M := λ A B f c w,
  match c w with
  | Ok a w' => f a w'
  | Throw w' => Throw w'
  | Undefined => Undefined
  end.

(** [try { body } catch (...) { handler }] *)
Definition try_catch {A} (body handler : M A) : M A := λ w,
  match body w with
  | Throw w' => handler w'
  | r => r
  end.

Definition cout (s : string) : M unit := λ w,
  Ok tt (World (sudoMode w) (permissions w) (disk w) (cwd w)
               (stdout w +:+ s)).

Definition get_sudoMode : M bool := λ w, Ok (sudoMode w) w.

Definition set_sudoMode (b : bool) : M unit := λ w,
  Ok tt (World b (permissions w) (disk w) (cwd w) (stdout w)).

Definition with_permissions (m : gmap string string) (w : world) : world :=
  World (sudoMode w) m (disk w) (cwd w) (stdout w).

Definition with_disk (t : gmap string node) (w : world) : world :=
  World (sudoMode w) (permissions w) t (cwd w) (stdout w).

(** Lift a function on the store that may grow it while reading. *)
Definition on_store {A} (f : gmap string string → A * gmap string string)
  : M A := λ w,
  let (a, m) := f (permissions w) in Ok a (with_permissions m w).

(** [permissions[k] = v] *)
Definition assign (k v : string) : M unit := λ w,
  Ok tt (with_permissions (<[k := v]> (permissions w)) w).

(** [permissions.erase(k)] *)
Definition erase (k : string) : M unit := λ w,
  Ok tt (with_permissions (delete k (permissions w)) w).

(** [s[i]] *)
Definition char_at (s : string) (i : nat) : M ascii := λ w,
  match string_at s i with
  | Some c => Ok c w
  | None => Undefined
  end.

(** Queries and throwing operations of [std::filesystem]. [query] gives
    the answer of [fs::exists], [fs::is_directory] and of the directory
    listing on a tree all of whose names can be examined. On a real
    system these calls are the throwing overloads too and raise a
    [filesystem_error] for a name they cannot examine (a component that is
    too long, say), outside any [try]; such names are not part of the tree,
    and what is stated about a command is stated for the answer the query
    gave. *)
Definition query {A} (f : gmap string node → A) : M A := λ w,
  Ok (f (disk w)) w.

Definition query_throwing {A} (f : gmap string node → option A) : M A := λ w,
  match f (disk w) with
  | Some a => Ok a w
  | None => Throw w
  end.

Definition update {A} (f : gmap string node → option (A * gmap string node))
  : M A := λ w,
  match f (disk w) with
  | Some (a, t) => Ok a (with_disk t w)
  | None => Throw w
  end.

Definition update_ (f : gmap string node → option (gmap string node))
  : M unit :=
  update (λ t, (λ t', (tt, t')) <$> f t).

(** ** Load and save: lines 30-49 *)

Definition loadPermissions : M unit := λ w,
  match Fs.open_in (disk w) PERM_FILE with
  | None => Ok tt w                                     (* if (!fin) return; *)
  | Some s => Ok tt (with_permissions (load_text s (permissions w)) w)
  end.

Definition savePermissions : M unit := λ w,
  Ok tt (with_disk (Fs.write_out (disk w) PERM_FILE
                      (save_text (permissions w))) w).

Definition getPermissionM (file : string) : M string :=
  on_store (getPermission file).

(** ** Display helper: lines 54-61 *)

Definition printPermissions (perm name : string) : M unit :=
  c ← char_at perm 0;
  let color :=
    if Ascii.eqb c "d" then BLUE
    else if contains "w" perm then GREEN
    else YELLOW in
  cout (color +:+ perm +:+ "  " +:+ name +:+ RESET +:+ nl).

(** ** Commands: lines 66-159 *)

Fixpoint for_each {A} (body : A → M unit) (l : list A) : M unit :=
  match l with
  | [] => mret tt
  | x :: l' => body x;; for_each body l'
  end.

Definition listFiles : M unit :=
  cout nl;;
  names ← query Fs.top_level;
  for_each (λ name, perm ← getPermissionM name; printPermissions perm name)
           names.

Definition makeDir (name : string) : M unit :=
  created ← update (λ t, Fs.create_directory t name);
  if created : bool then
    assign name "drwxr-xr-x";;
    savePermissions;;
    cout (GREEN +:+ "Directory created: " +:+ name +:+ RESET +:+ nl)
  else cout (RED +:+ "Failed to create directory." +:+ nl +:+ RESET).

Definition removeDir (name : string) : M unit :=
  found ← query (λ t, Fs.exists_ t name);
  if negb found then cout (RED +:+ "Not found." +:+ nl +:+ RESET) else
  isDir ← query (λ t, Fs.is_directory t name);
  if negb isDir then cout (RED +:+ "Not a directory." +:+ nl +:+ RESET) else
  empty ← query_throwing (λ t, Fs.is_empty t name);
  if empty : bool then
    update (λ t, Fs.remove t name);;
    erase name;;
    savePermissions;;
    cout (GREEN +:+ "Directory removed." +:+ nl +:+ RESET)
  else cout (YELLOW +:+ "Directory not empty." +:+ nl +:+ RESET).

(** [!sudoMode && getPermission(name)[i] != flag]; the right operand is
    evaluated only when [sudoMode] is false. *)
Definition lacks (name : string) (i : nat) (flag : ascii) : M bool :=
  sudo ← get_sudoMode;
  if negb sudo then
    perm ← getPermissionM name;
    c ← char_at perm i;
    mret (negb (Ascii.eqb c flag))
  else mret false.

Definition deleteFile (name : string) : M unit :=
  found ← query (λ t, Fs.exists_ t name);
  if negb found then cout (RED +:+ "File not found." +:+ nl +:+ RESET) else
  denied ← lacks name 2 "w";
  if denied : bool then cout (RED +:+ "Permission denied." +:+ nl +:+ RESET) else
  update (λ t, Fs.remove t name);;
  erase name;;
  savePermissions;;
  cout (GREEN +:+ "Deleted: " +:+ name +:+ RESET +:+ nl).

(** The lambda of lines 108-116. [c - '0'] is an [int]; only its three low
    bits are looked at. *)
Definition conv_int (n : Z) (dir : bool) : string :=
  String (if dir then "d" else "-")
 (String (if negb (Z.land n 4 =? 0)%Z then "r" else "-")
 (String (if negb (Z.land n 2 =? 0)%Z then "w" else "-")
 (String (if negb (Z.land n 1 =? 0)%Z then "x" else "-")
  EmptyString)))%char.

Definition conv (c : ascii) (dir : bool) : string :=
  conv_int (Z.of_N (N_of_ascii c) - 48) dir.        (* int n = c - '0'; *)

Definition chmodFile (name permCode : string) : M unit :=
  found ← query (λ t, Fs.exists_ t name);
  if negb found then cout (RED +:+ "Not found." +:+ nl +:+ RESET) else
  if negb (Nat.eqb (String.length permCode) 3)
  then cout (YELLOW +:+ "Use format like 755." +:+ nl +:+ RESET) else
  isDir ← query (λ t, Fs.is_directory t name);
  c0 ← char_at permCode 0;
  c1 ← char_at permCode 1;
  c2 ← char_at permCode 2;
  let p := conv c0 isDir +:+ conv c1 false +:+ conv c2 false in
  assign name p;;
  savePermissions;;
  cout (GREEN +:+ "Changed permission of " +:+ name +:+ " to " +:+ p
          +:+ RESET +:+ nl).

Definition showPerm (name : string) : M unit :=
  found ← query (λ t, Fs.exists_ t name);
  if negb found then cout (RED +:+ "Not found." +:+ nl +:+ RESET) else
  perm ← getPermissionM name;
  cout (YELLOW +:+ name +:+ ": " +:+ perm +:+ RESET +:+ nl).

Definition copyFileCmd (src dest : string) : M unit :=
  found ← query (λ t, Fs.exists_ t src);
  if negb found then cout (RED +:+ "Source not found." +:+ nl +:+ RESET) else
  denied ← lacks src 1 "r";
  if denied : bool
  then cout (RED +:+ "Permission denied (no read)." +:+ nl +:+ RESET) else
  try_catch
    (update_ (λ t, Fs.copy_file t src dest);;
     perm ← getPermissionM src;
     assign dest perm;;
     savePermissions;;
     cout (GREEN +:+ "Copied " +:+ src +:+ " → " +:+ dest +:+ RESET +:+ nl))
    (cout (RED +:+ "Copy failed." +:+ nl +:+ RESET)).

Definition moveFileCmd (src dest : string) : M unit :=
  found ← query (λ t, Fs.exists_ t src);
  if negb found then cout (RED +:+ "Source not found." +:+ nl +:+ RESET) else
  denied ← lacks src 2 "w";
  if denied : bool
  then cout (RED +:+ "Permission denied (no write)." +:+ nl +:+ RESET) else
  try_catch
    (update_ (λ t, Fs.rename t src dest);;
     perm ← on_store (subscript src);       (* permissions[src] *)
     assign dest perm;;
     erase src;;
     savePermissions;;
     cout (GREEN +:+ "Moved " +:+ src +:+ " → " +:+ dest +:+ RESET +:+ nl))
    (cout (RED +:+ "Move failed." +:+ nl +:+ RESET)).

(** Lines 164-181. *)
Definition help_text : list string :=
  [ nl +:+ "==============================" +:+ nl;
    " Available Commands (Linux-style)" +:+ nl;
    "==============================" +:+ nl;
    "ls                  - List directory contents with color + permissions" +:+ nl;
    "cd <dir>            - Change directory" +:+ nl;
    "mkdir <name>        - Create directory" +:+ nl;
    "rmdir <name>        - Remove directory (if empty)" +:+ nl;
    "del <file>          - Delete a file" +:+ nl;
    "chmod <file> <perm> - Change file permissions (rwx format)" +:+ nl;
    "perm <file>         - Show permissions" +:+ nl;
    "cp <src> <dest>     - Copy file to destination" +:+ nl;
    "mv <src> <dest>     - Move (rename) file or directory" +:+ nl;
    "sudo <cmd>          - Temporary permission override" +:+ nl;
    "help                - Show this help menu" +:+ nl;
    "exit                - Quit program" +:+ nl;
    "==============================" +:+ nl ].

Definition showHelp : M unit := for_each cout help_text.

(** ** The command loop: lines 186-224 *)

(** [iss >> cmd >> arg1 >> arg2] on three empty strings: once an
    extraction fails the later ones leave their strings empty. *)
Definition parse (input : string) : string * string * string :=
  match extract input with
  | None => (EmptyString, EmptyString, EmptyString)
  | Some (cmd, r1) =>
      match extract r1 with
      | None => (cmd, EmptyString, EmptyString)
      | Some (arg1, r2) =>
          match extract r2 with
          | None => (cmd, arg1, EmptyString)
          | Some (arg2, _) => (cmd, arg1, arg2)
          end
      end
  end.

(** How control leaves the if-chain of lines 202-217. *)
Inductive flow : Type :=
| Falls      (* reaches line 219 *)
| Continues  (* [continue]: back to the top of the loop *)
| Breaks.    (* [break] *)

Definition dispatch (cmd arg1 arg2 : string) : M flow :=
  if String.eqb cmd "exit" then mret Breaks
  else if String.eqb cmd "ls" then listFiles;; mret Falls
  else if String.eqb cmd "mkdir" then makeDir arg1;; mret Falls
  else if String.eqb cmd "rmdir" then removeDir arg1;; mret Falls
  else if String.eqb cmd "del" then deleteFile arg1;; mret Falls
  else if String.eqb cmd "chmod" then chmodFile arg1 arg2;; mret Falls
  else if String.eqb cmd "perm" then showPerm arg1;; mret Falls
  else if String.eqb cmd "cp" then copyFileCmd arg1 arg2;; mret Falls
  else if String.eqb cmd "mv" then moveFileCmd arg1 arg2;; mret Falls
  else if String.eqb cmd "help" then showHelp;; mret Falls
  else if String.eqb cmd "sudo" then
    set_sudoMode true;;
    cout (YELLOW +:+ "Sudo mode active (for one command)." +:+ RESET +:+ nl);;
    mret Falls
  else if String.eqb cmd EmptyString then mret Continues
  else cout (RED +:+ "Unknown command." +:+ nl +:+ RESET);; mret Falls.

(** One turn of [while (true)] on the line [std::getline] delivered; the
    result tells whether the loop goes on. *)
Definition iteration (input : string) : M bool :=
  dir ← (λ w, Ok (Fs.filename (cwd w)) w) : M string;
  cout (currentUser +:+ "@explorer " +:+ dir +:+ " $ ");;
  let '(cmd, arg1, arg2) := parse input in
  f ← dispatch cmd arg1 arg2;
  match f with
  | Breaks => mret false
  | Continues => mret true
  | Falls => set_sudoMode false;; mret true      (* sudo lasts one command *)
  end.

(** The loop over the lines typed so far; what happens at the end of the
    input is left out. *)
Inductive status : Type :=
| Prompting   (* blocked in [std::getline], every line consumed *)
| Exited.     (* left the loop through [break] *)

Fixpoint loop (inputs : list string) : M status :=
  match inputs with
  | [] => mret Prompting
  | input :: rest =>
      again ← iteration input;
      if again : bool then loop rest else mret Exited
  end.

Definition banner : M unit :=
  cout ("==============================" +:+ nl);;
  cout (" FILE EXPLORER Application (Capstone Project)" +:+ nl);;
  cout ("==============================" +:+ nl);;
  dir ← (λ w, Ok (cwd w) w) : M string;
  cout ("Current Directory: " +:+ dir +:+ nl +:+ nl).

(** [main] on the lines [inputs]. A [Throw] out of [main] is an exception
    nobody caught: the runtime calls [std::terminate] and the process is
    aborted. *)
Definition main (inputs : list string) : M status :=
  loadPermissions;;
  banner;;
  st ← loop inputs;
  match st with
  | Exited => cout (YELLOW +:+ "Exiting. Goodbye!" +:+ nl +:+ RESET);; mret Exited
  | Prompting => mret Prompting
  end.

(** The process image at [main]'s entry, in a directory holding [t]. *)
Definition start (t : gmap string node) (dir : string) : world :=
  World false ∅ t dir EmptyString.

(** ** Notions used in the statements *)

Fixpoint no_space (s : string) : bool :=
  match s with
  | EmptyString => true
  | String c s' => negb (isspace c) && no_space s'
  end.

(** What one [>>] can deliver: a non-empty run of non-blank characters. *)
Definition token (s : string) : Prop := s ≠ EmptyString ∧ no_space s = true.

(** A store whose names and permission strings are all tokens. *)
Definition storable (m : gmap string string) : Prop :=
  map_Forall (λ k v, token k ∧ token v) m.

(** The world after [s] went to [std::cout] and nothing else happened. *)
Definition said (s : string) (w : world) : world :=
  World (sudoMode w) (permissions w) (disk w) (cwd w) (stdout w +:+ s).

Definition prompt (w : world) : string :=
  currentUser +:+ "@explorer " +:+ Fs.filename (cwd w) +:+ " $ ".

(** [save()] in this process, then [load()] in a new process started in the
    same directory: the store that process begins with. *)
Definition reload (w : world) : option (gmap string string) :=
  match savePermissions w with
  | Ok _ w1 =>
      match loadPermissions (start (disk w1) (cwd w1)) with
      | Ok _ w2 => Some (permissions w2)
      | _ => None
      end
  | _ => None
  end.

(** The worlds in which the loop can be waiting for a line. *)
Definition reachable (w : world) : Prop :=
  ∃ t dir inputs,
    (loadPermissions;; banner;; loop inputs) (start t dir) = Ok Prompting w.

(** The 4-character group as the specification words it: the type flag,
    then r, w, x for the bits worth 4, 2 and 1 of [c - '0']. *)
Definition spec_group (flag : ascii) (c : ascii) : string :=
  let n := (Z.of_N (N_of_ascii c) - Z.of_N (N_of_ascii "0"))%Z in
  String flag
 (String (if Z.testbit n 2 then "r" else "-")
 (String (if Z.testbit n 1 then "w" else "-")
 (String (if Z.testbit n 0 then "x" else "-")
  EmptyString)))%char.

(** [char] read as a signed 8-bit quantity, as on x86. *)
Definition signed_char (c : ascii) : Z :=
  let n := Z.of_N (N_of_ascii c) in
  if (n <? 128)%Z then n else (n - 256)%Z.

(** The text after a token either ends or goes on with a blank. *)
Definition boundary (r : string) : Prop :=
  match r with
  | EmptyString => True
  | String c _ => isspace c = true
  end.

(** The world [deleteFile] leaves behind when it gets past both checks and
    [fs::remove] turned the tree into [t]. *)
Definition deleted (name : string) (t : gmap string node) (w : world) : world :=
  let m := delete name (permissions w) in
  World (sudoMode w) m (Fs.write_out t PERM_FILE (save_text m)) (cwd w)
        (stdout w +:+ GREEN +:+ "Deleted: " +:+ name +:+ RESET +:+ nl).

(** The world [moveFileCmd] leaves behind when it gets past both checks
    and [fs::rename] turned the tree into [t]. *)
Definition moved_to (src dest : string) (t : gmap string node) (w : world)
  : world :=
  let m := delete src (<[dest := default EmptyString (permissions w !! src)]>
                         (permissions w)) in
  World (sudoMode w) m (Fs.write_out t PERM_FILE (save_text m)) (cwd w)
        (stdout w +:+ GREEN +:+ "Moved " +:+ src +:+ " → " +:+ dest
           +:+ RESET +:+ nl).

(** The world [chmodFile] leaves behind when it stores [p] for [name]. *)
Definition chmodded (name p : string) (w : world) : world :=
  let m := <[name := p]> (permissions w) in
  World (sudoMode w) m (Fs.write_out (disk w) PERM_FILE (save_text m)) (cwd w)
        (stdout w +:+ GREEN +:+ "Changed permission of " +:+ name +:+ " to "
           +:+ p +:+ RESET +:+ nl).

(** ** The shape of the worlds the program reaches *)

(** No entry of the tree is named by the empty path. *)
Definition plain (t : gmap string node) : Prop := t !! EmptyString = None.

Definition blank_or_token (s : string) : Prop := s = EmptyString ∨ token s.

(** Names are tokens; permission strings are tokens or empty. *)
Definition tidy_store (m : gmap string string) : Prop :=
  map_Forall (λ k v, token k ∧ blank_or_token v) m.

Definition tidy (w : world) : Prop :=
  plain (disk w) ∧ tidy_store (permissions w).

(** A computation that, when it returns, has left the store and the tree
    alone. *)
Definition quiet {A} (c : M A) : Prop :=
  ∀ w a w', c w = Ok a w' →
    permissions w' = permissions w ∧ disk w' = disk w.

(** ** Sample directories and worlds *)

Definition home : string := "/home/u/proj".

(** A directory holding one file the program has never heard of. *)
Definition one_file : gmap string node := {[ "a.txt" := File "hi" ]}.

(** A directory [d] with a file in it. *)
Definition one_tree : gmap string node :=
  <["d" := Dir]> {[ "d/e" := File "hi" ]}.

(** An empty directory [d], created by [mkdir d] in an earlier session. *)
Definition empty_dir : world :=
  World false {[ "d" := "drwxr-xr-x" ]}
        (<["d" := Dir]> {[ PERM_FILE := File ("d drwxr-xr-x" +:+ nl) ]})
        home EmptyString.

(** A file made read-only by [chmod a.txt 444] in an earlier session. *)
Definition read_only : world :=
  World false {[ "a.txt" := "-r---r---r--" ]}
        (<["a.txt" := File "hi"]>
           {[ PERM_FILE := File ("a.txt -r---r---r--" +:+ nl) ]})
        home EmptyString.

(** A file without read permission, as [chmod a.txt 200] leaves it. *)
Definition write_only : world :=
  World false {[ "a.txt" := "--w---------" ]}
        (<["a.txt" := File "hi"]>
           {[ PERM_FILE := File ("a.txt --w---------" +:+ nl) ]})
        home EmptyString.

(** A world in which [sudoMode] is set while the loop waits for a line. *)
Definition flag_raised : world := World true ∅ one_file home EmptyString.

(** A populated directory [d] that has no entry in the store. *)
Definition populated_dir : world := World false ∅ one_tree home EmptyString.

(** A directory holding nothing but an empty permissions file. *)
Definition bare : world :=
  World false ∅ {[ PERM_FILE := File EmptyString ]} home EmptyString.

(** ** Notions used in the further properties *)

(** Store and tree are the same in both worlds. *)
Definition untouched (w w' : world) : Prop :=
  permissions w' = permissions w ∧ disk w' = disk w.

(** The permissions file holds exactly what [savePermissions] writes for
    the store, or a directory sits in its place. *)
Definition synced (w : world) : Prop :=
  disk w !! PERM_FILE = Some Dir
  ∨ disk w !! PERM_FILE = Some (File (save_text (permissions w))).

(** What a command may do to store and tree: either nothing, or end with
    the permissions file rewritten; and the entries of names other than
    [names] stay as they were. *)
Definition effect (names : list string) (w w' : world) : Prop :=
  (untouched w w' ∨ synced w')
  ∧ ∀ k, k ∉ names → permissions w' !! k = permissions w !! k.

(** A computation that, on the trees of this model, returns having done
    nothing but print. *)
Definition only_prints {A} (c : M A) : Prop :=
  ∀ w, ∃ a s, c w = Ok a (said s w).

(** The world [removeDir] leaves behind when it removes [name]. *)
Definition removed (name : string) (w : world) : world :=
  let m := delete name (permissions w) in
  World (sudoMode w) m
        (Fs.write_out (delete name (disk w)) PERM_FILE (save_text m)) (cwd w)
        (stdout w +:+ GREEN +:+ "Directory removed." +:+ nl +:+ RESET).

(** A run of whitespace characters, possibly empty; a gap is such a run
    that is not empty. *)
Fixpoint blanks (s : string) : bool :=
  match s with
  | EmptyString => true
  | String c s' => isspace c && blanks s'
  end.

Definition gap (s : string) : Prop := s ≠ EmptyString ∧ blanks s = true.

(** [names] lists the entries of the working directory itself, each once,
    in some order. *)
Definition lists_directory (t : gmap string node) (names : list string)
  : Prop :=
  NoDup names
  ∧ ∀ k, k ∈ names ↔ is_Some (t !! k) ∧ k ≠ EmptyString ∧ Fs.parent k = None.

(** The first tokens the if-chain of [main] compares with. *)
Definition known_commands : list string :=
  ["exit"; "ls"; "mkdir"; "rmdir"; "del"; "chmod"; "perm"; "cp"; "mv";
   "help"; "sudo"].

(** The colour of a line of [ls], told from the shape of the string. *)
Definition color_of (perm : string) : string :=
  match perm with
  | String "d" _ => BLUE
  | _ => if contains "w" perm then GREEN else YELLOW
  end.

(** The line [ls] prints for [name] when the store is [m]. *)
Definition ls_line (m : gmap string string) (name : string) : string :=
  let perm := (getPermission name m).1 in
  color_of perm +:+ perm +:+ "  " +:+ name +:+ RESET +:+ nl.

Fixpoint ls_text (m : gmap string string) (names : list string) : string :=
  match names with
  | [] => EmptyString
  | name :: rest => ls_line m name +:+ ls_text m rest
  end.

(** A file whose entry holds the empty string, as [mv] of an unlisted file
    leaves it. *)
Definition lost_permission : world :=
  World false {[ "b.txt" := EmptyString ]}
        (<["b.txt" := File "hi"]> {[ PERM_FILE := File ("b.txt " +:+ nl) ]})
        home EmptyString.

(** A file and a directory, both listed. *)
Definition two_entries : world :=
  World false (<["a.txt" := "-rw-r--r--"]> {[ "d" := "d---------" ]})
        (<["a.txt" := File "hi"]> (<["d" := Dir]>
           {[ PERM_FILE := File ("a.txt -rw-r--r--" +:+ nl
                                   +:+ "d d---------" +:+ nl) ]}))
        home EmptyString.

(** * Properties *)

(** ** Strings and extraction *)

Lemma app_nil_l (s : string) : EmptyString +:+ s = s.
Proof. reflexivity. Qed.

Lemma app_cons (c : ascii) (s t : string) :
  String c s +:+ t = String c (s +:+ t).
Proof. reflexivity. Qed.

Lemma app_assoc (s t u : string) : (s +:+ t) +:+ u = s +:+ t +:+ u.
Proof.
  induction s as [|c s IH]; [reflexivity|].
  rewrite !app_cons. by rewrite IH.
Qed.

Lemma app_length (s t : string) :
  String.length (s +:+ t) = String.length s + String.length t.
Proof.
  induction s as [|c s IH]; [reflexivity|].
  rewrite app_cons. simpl. by rewrite IH.
Qed.

Lemma word_token (t r : string) :
  no_space t = true → boundary r → word (t +:+ r) = (t, r).
Proof.
  intros Ht Hr. induction t as [|c t IH].
  - rewrite app_nil_l. destruct r as [|c r]; [reflexivity|].
    simpl in *. by rewrite Hr.
  - simpl in Ht. apply andb_prop in Ht as [Hc Ht].
    rewrite app_cons. simpl. apply negb_true_iff in Hc. rewrite Hc.
    by rewrite (IH Ht).
Qed.

Lemma skipws_token (t r : string) :
  token t → skipws (t +:+ r) = t +:+ r.
Proof.
  intros [Hne Ht]. destruct t as [|c t]; [done|].
  simpl in Ht. apply andb_prop in Ht as [Hc _]. apply negb_true_iff in Hc.
  rewrite app_cons. simpl. by rewrite Hc.
Qed.

Lemma extract_token (t r : string) :
  token t → boundary r → extract (t +:+ r) = Some (t, r).
Proof.
  intros Ht Hr. unfold extract.
  rewrite (skipws_token _ _ Ht), (word_token _ _ (proj2 Ht) Hr).
  destruct t; [by destruct Ht|done].
Qed.

Lemma extract_blank (c : ascii) (s : string) :
  isspace c = true → extract (String c s) = extract s.
Proof. intros Hc. unfold extract. simpl. by rewrite Hc. Qed.

(** Extraction never lengthens the stream and takes at least one
    character. *)
Lemma skipws_length (s : string) :
  (String.length (skipws s) ≤ String.length s)%nat.
Proof.
  induction s as [|c s IH]; simpl; [done|].
  destruct (isspace c); simpl; lia.
Qed.

Lemma word_length (s t r : string) :
  word s = (t, r) → String.length s = String.length t + String.length r.
Proof.
  revert t r. induction s as [|c s IH]; intros t r; simpl.
  - by intros [= <- <-].
  - destruct (isspace c).
    + by intros [= <- <-].
    + destruct (word s) as [t' r'] eqn:E. intros [= <- <-].
      simpl. by rewrite (IH _ _ eq_refl).
Qed.

Lemma extract_shorter (s t r : string) :
  extract s = Some (t, r) → String.length r < String.length s.
Proof.
  unfold extract. destruct (word (skipws s)) as [t' r'] eqn:E.
  pose proof (word_length _ _ _ E) as Hl. pose proof (skipws_length s).
  destruct t'; [done|]. intros [= <- <-]. simpl in Hl. lia.
Qed.

Lemma extract_is_token (s t r : string) :
  extract s = Some (t, r) → token t.
Proof.
  unfold extract. destruct (word (skipws s)) as [t' r'] eqn:E.
  intros Ht. assert (t' = t) as -> by (destruct t'; [done|by inversion Ht]).
  split; [by destruct t|]. clear Ht.
  revert t r' E. induction (skipws s) as [|c u IH]; intros t r'; simpl.
  - by intros [= <- <-].
  - destruct (isspace c) eqn:Hc; [by intros [= <- <-]|].
    destruct (word u) as [t1 r1] eqn:E1. intros [= <- <-].
    simpl. rewrite Hc. simpl. by eapply IH.
Qed.

(** ** The loop of [loadPermissions] *)

(** Any two amounts of fuel that cover the length of the text give the same
    store: the loop stops by itself before either runs out. *)
Lemma load_loop_fuel (f1 f2 : nat) (s : string) (m : gmap string string) :
  (String.length s ≤ f1)%nat → (String.length s ≤ f2)%nat →
  load_loop f1 s m = load_loop f2 s m.
Proof.
  revert f2 s m. induction f1 as [|f1 IH]; intros f2 s m H1 H2.
  - destruct s; [|simpl in H1; lia]. by destruct f2.
  - destruct f2 as [|f2].
    { destruct s; [done|simpl in H2; lia]. }
    simpl. destruct (extract s) as [[file s1]|] eqn:E1; [|done].
    destruct (extract s1) as [[perm s2]|] eqn:E2; [|done].
    apply extract_shorter in E1, E2. apply IH; lia.
Qed.

(** The fuel [load_text] provides is enough: more gives the same store. *)
Lemma load_text_enough (fuel : nat) (s : string) (m : gmap string string) :
  (String.length s ≤ fuel)%nat → load_loop fuel s m = load_text s m.
Proof. intros H. by apply load_loop_fuel. Qed.

Lemma load_loop_blank (fuel : nat) (c : ascii) (s : string)
    (m : gmap string string) :
  isspace c = true → load_loop fuel (String c s) m = load_loop fuel s m.
Proof. intros Hc. destruct fuel; [done|]. simpl. by rewrite extract_blank. Qed.

(** On the text [save] writes for tokens, the loop performs exactly the
    assignments [permissions[k] = v], entry by entry. *)
Lemma load_loop_render (l : list (string * string)) :
  Forall (λ p, token p.1 ∧ token p.2) l →
  ∀ fuel m, (List.length l ≤ fuel)%nat →
    load_loop fuel (render l) m = foldl (λ m p, <[p.1 := p.2]> m) m l.
Proof.
  induction 1 as [|[k v] l [Hk Hv] _ IH]; intros fuel m Hf.
  - by destruct fuel.
  - destruct fuel as [|fuel]; [simpl in Hf; lia|].
    cbn [render load_loop foldl fst snd] in *.
    rewrite (extract_token k), app_cons, app_nil_l by done.
    rewrite (extract_blank " "), (extract_token v) by done.
    change (nl +:+ render l) with (String "010" (render l)).
    rewrite load_loop_blank by done. apply IH. simpl in Hf. lia.
Qed.

Lemma render_length (l : list (string * string)) :
  (List.length l ≤ String.length (render l))%nat.
Proof.
  induction l as [|[k v] l IH]; simpl; [done|].
  rewrite !app_length. simpl. lia.
Qed.

(** Assigning the entries of a map one after the other rebuilds the map,
    whatever the order. *)
Lemma foldl_assign_entries (m : gmap string string)
    (l : list (string * string)) :
  l ≡ₚ map_to_list m → foldl (λ m p, <[p.1 := p.2]> m) ∅ l = m.
Proof.
  intros Hl.
  assert (∀ (l : list (string * string)) (a : gmap string string),
    foldl (λ m p, <[p.1 := p.2]> m) a (reverse l)
    = foldr (λ p m, <[p.1 := p.2]> m) a l) as Hrev.
  { intros l0 a. induction l0 as [|p l0 IH]; [done|].
    by rewrite reverse_cons, foldl_app, IH. }
  rewrite <-(reverse_involutive l), Hrev.
  transitivity (list_to_map (reverse l) : gmap string string).
  { generalize (reverse l). intros l0.
    induction l0 as [|[k v] l0 IH]; [done|]. simpl. by rewrite IH. }
  rewrite <-(list_to_map_to_list m) at 1.
  apply list_to_map_proper.
  - rewrite reverse_Permutation, Hl. apply NoDup_fst_map_to_list.
  - by rewrite reverse_Permutation.
Qed.

Lemma entries_Permutation (m : gmap string string) :
  entries m ≡ₚ map_to_list m.
Proof. apply merge_sort_Permutation. Qed.

(** [load] undoes [save] on every store made of tokens. *)
Lemma load_save_storable (m : gmap string string) :
  storable m → load_text (save_text m) ∅ = m.
Proof.
  intros Hm. unfold load_text, save_text.
  rewrite load_loop_render.
  - apply foldl_assign_entries, entries_Permutation.
  - rewrite entries_Permutation. apply Forall_forall.
    intros [k v] Hkv%elem_of_map_to_list. exact (Hm k v Hkv).
  - apply render_length.
Qed.

(** ** Running a computation step by step *)

Lemma bind_Ok {A B} (c : M A) (f : A → M B) (w w' : world) (a : A) :
  c w = Ok a w' → (c ≫= f) w = f a w'.
Proof. intros H. unfold mbind, M_bind. by rewrite H. Qed.

Lemma bind_Throw {A B} (c : M A) (f : A → M B) (w w' : world) :
  c w = Throw w' → (c ≫= f) w = Throw w'.
Proof. intros H. unfold mbind, M_bind. by rewrite H. Qed.

Lemma bind_Undefined {A B} (c : M A) (f : A → M B) (w : world) :
  c w = Undefined → (c ≫= f) w = Undefined.
Proof. intros H. unfold mbind, M_bind. by rewrite H. Qed.

Lemma with_permissions_same (w : world) : with_permissions (permissions w) w = w.
Proof. by destruct w. Qed.

(** ** [getPermission] *)

Lemma getPermission_absent (file : string) (m : gmap string string) :
  m !! file = None → getPermission file m = (FALLBACK, m).
Proof.
  intros H. unfold getPermission, count. rewrite H.
  rewrite bool_decide_eq_false_2; [done|]. by intros [? ?].
Qed.

Lemma getPermission_present (file v : string) (m : gmap string string) :
  m !! file = Some v → getPermission file m = (v, m).
Proof.
  intros H. unfold getPermission, count, subscript. rewrite H.
  by rewrite bool_decide_eq_true_2 by eauto.
Qed.

Lemma getPermission_store (file : string) (m : gmap string string) :
  (getPermission file m).2 = m.
Proof.
  destruct (m !! file) as [v|] eqn:E.
  - by rewrite (getPermission_present _ _ _ E).
  - by rewrite (getPermission_absent _ _ E).
Qed.

Lemma getPermissionM_run (file : string) (w : world) :
  getPermissionM file w = Ok (getPermission file (permissions w)).1 w.
Proof.
  unfold getPermissionM, on_store.
  pose proof (getPermission_store file (permissions w)) as H.
  destruct (getPermission file (permissions w)) as [p m]. simpl in *.
  subst m. by rewrite with_permissions_same.
Qed.

(** ** The permission check [!sudoMode && getPermission(name)[i] != flag] *)

Lemma lacks_sudo (name : string) (i : nat) (flag : ascii) (w : world) :
  sudoMode w = true → lacks name i flag w = Ok false w.
Proof. intros H. unfold lacks, mbind, M_bind, get_sudoMode. by rewrite H. Qed.

Lemma lacks_checked (name : string) (i : nat) (flag c : ascii) (w : world) :
  sudoMode w = false →
  string_at (getPermission name (permissions w)).1 i = Some c →
  lacks name i flag w = Ok (negb (Ascii.eqb c flag)) w.
Proof.
  intros Hs Hc. unfold lacks, mbind, M_bind, get_sudoMode. rewrite Hs. simpl.
  rewrite getPermissionM_run. unfold char_at. by rewrite Hc.
Qed.

Lemma lacks_out_of_range (name : string) (i : nat) (flag : ascii) (w : world) :
  sudoMode w = false →
  string_at (getPermission name (permissions w)).1 i = None →
  lacks name i flag w = Undefined.
Proof.
  intros Hs Hc. unfold lacks, mbind, M_bind, get_sudoMode. rewrite Hs. simpl.
  rewrite getPermissionM_run. unfold char_at. by rewrite Hc.
Qed.

(** ** [deleteFile] *)

Lemma deleteFile_denied (name : string) (w : world) :
  Fs.exists_ (disk w) name = true →
  lacks name 2 "w" w = Ok true w →
  deleteFile name w = Ok tt (said (RED +:+ "Permission denied." +:+ nl +:+ RESET) w).
Proof.
  intros He Hl. unfold deleteFile.
  rewrite (bind_Ok _ _ w w true) by (unfold query; by rewrite He).
  simpl. by rewrite (bind_Ok _ _ _ _ _ Hl).
Qed.

Lemma deleteFile_removes (name : string) (w : world) (b : bool)
    (t : gmap string node) :
  Fs.exists_ (disk w) name = true →
  lacks name 2 "w" w = Ok false w →
  Fs.remove (disk w) name = Some (b, t) →
  deleteFile name w = Ok tt (deleted name t w).
Proof.
  intros He Hl Hr. unfold deleteFile.
  rewrite (bind_Ok _ _ w w true) by (unfold query; by rewrite He).
  simpl. rewrite (bind_Ok _ _ _ _ _ Hl).
  rewrite (bind_Ok _ _ w (with_disk t w) b) by (unfold update; by rewrite Hr).
  reflexivity.
Qed.

Lemma deleteFile_throws (name : string) (w : world) :
  Fs.exists_ (disk w) name = true →
  lacks name 2 "w" w = Ok false w →
  Fs.remove (disk w) name = None →
  deleteFile name w = Throw w.
Proof.
  intros He Hl Hr. unfold deleteFile.
  rewrite (bind_Ok _ _ w w true) by (unfold query; by rewrite He).
  simpl. rewrite (bind_Ok _ _ _ _ _ Hl).
  apply bind_Throw. unfold update. by rewrite Hr.
Qed.

(** [fs::remove] on a file or an empty directory takes exactly that entry
    away. *)
Lemma remove_unpopulated (t : gmap string node) (p : string) :
  Fs.exists_ t p = true → Fs.populated p t = false →
  Fs.remove t p = Some (true, delete p t).
Proof.
  unfold Fs.exists_, Fs.remove. rewrite bool_decide_eq_true.
  intros [n Hn] Hp. rewrite Hn. destruct n; [done|]. by rewrite Hp.
Qed.

Lemma remove_file (t : gmap string node) (p s : string) :
  t !! p = Some (File s) → Fs.remove t p = Some (true, delete p t).
Proof. intros H. unfold Fs.remove. by rewrite H. Qed.

Lemma remove_populated (t : gmap string node) (p : string) :
  Fs.is_directory t p = true → Fs.populated p t = true → Fs.remove t p = None.
Proof.
  unfold Fs.is_directory, Fs.remove. intros Hd Hp.
  destruct (t !! p) as [[|]|]; try done. by rewrite Hp.
Qed.

(** What rewriting the permissions file does to the other names. *)
Lemma exists_write_out_ne (t : gmap string node) (p q s : string) :
  p ≠ q → Fs.exists_ (Fs.write_out t p s) q = Fs.exists_ t q.
Proof.
  intros Hne. unfold Fs.exists_, Fs.write_out.
  destruct (t !! p) as [[|]|]; by rewrite ?lookup_insert_ne.
Qed.

Lemma is_directory_write_out (t : gmap string node) (p q s : string) :
  Fs.is_directory t q = false →
  Fs.is_directory (Fs.write_out t p s) q = false.
Proof.
  unfold Fs.is_directory, Fs.write_out. intros H.
  destruct (t !! p) as [[|]|] eqn:E; try done;
    (destruct (decide (p = q)) as [->|];
      [by rewrite lookup_insert_eq|by rewrite lookup_insert_ne]).
Qed.

(** ** The loop and [sudoMode] *)

Lemma then_Falls (c : M unit) (w w' : world) (f : flow) :
  (c;; mret Falls) w = Ok f w' → f = Falls.
Proof.
  unfold mbind, M_bind, mret, M_ret. destruct (c w); [|done..].
  by intros [= <- _].
Qed.

(** The if-chain either reaches line 219 or has not touched the world. *)
Lemma dispatch_flow (cmd arg1 arg2 : string) (w w' : world) (f : flow) :
  dispatch cmd arg1 arg2 w = Ok f w' → f = Falls ∨ w' = w.
Proof.
  unfold dispatch.
  repeat (destruct (String.eqb cmd _);
    [first [ by intros ?%then_Falls; left
           | by intros [= <- <-]; right
           | by cbv [mbind M_bind mret M_ret set_sudoMode cout];
             intros [= <- _]; left ]|]).
  by intros ?%then_Falls; left.
Qed.

(** One turn of the loop: the prompt, then the if-chain on the parsed
    line, then line 219 unless the chain left by [continue] or [break]. *)
Lemma iteration_unfold (input : string) (w : world) :
  iteration input w =
  (let '(cmd, arg1, arg2) := parse input in
   f ← dispatch cmd arg1 arg2;
   match f with
   | Breaks => mret false
   | Continues => mret true
   | Falls => set_sudoMode false;; mret true
   end) (said (prompt w) w).
Proof. reflexivity. Qed.

(** After a turn that started with [sudoMode] false, it is false. *)
Lemma iteration_sudoMode (input : string) (w w' : world) (b : bool) :
  sudoMode w = false → iteration input w = Ok b w' → sudoMode w' = false.
Proof.
  intros Hs. rewrite iteration_unfold.
  destruct (parse input) as [[cmd arg1] arg2].
  unfold mbind at 1, M_bind at 1.
  destruct (dispatch cmd arg1 arg2 _) as [f w1| |] eqn:E; [|done..].
  apply dispatch_flow in E as [->| ->].
  - by intros [= _ <-].
  - destruct f; by intros [= _ <-].
Qed.

Lemma loop_sudoMode (inputs : list string) (w w' : world) (st : status) :
  sudoMode w = false → loop inputs w = Ok st w' → sudoMode w' = false.
Proof.
  revert w. induction inputs as [|input rest IH]; intros w Hs; simpl.
  - by intros [= _ <-].
  - unfold mbind, M_bind.
    destruct (iteration input w) as [b w1| |] eqn:E; [|done..].
    apply iteration_sudoMode in E; [|done].
    destruct b; [by apply IH|by intros [= _ <-]].
Qed.

(** Whenever the program waits for a line, [sudoMode] is false. *)
Lemma reachable_sudoMode (w : world) : reachable w → sudoMode w = false.
Proof.
  intros (t & dir & inputs & H). revert H.
  unfold mbind at 1, M_bind at 1, loadPermissions.
  set (w0 := start t dir).
  assert (∀ w1, sudoMode w1 = false →
            (banner;; loop inputs) w1 = Ok Prompting w → sudoMode w = false)
    as Hrest.
  { intros w1 H1. unfold banner.
    cbv [mbind M_bind cout]. simpl. by apply loop_sudoMode. }
  destruct (Fs.open_in (disk w0) PERM_FILE); by apply Hrest.
Qed.

(** A line holding [sudo] raises the flag and lowers it again within the
    same turn. *)
Lemma iteration_sudo (w : world) :
  iteration "sudo" w =
  Ok true (said (prompt w +:+ YELLOW +:+ "Sudo mode active (for one command)."
                   +:+ RESET +:+ nl)
                (World false (permissions w) (disk w) (cwd w) (stdout w))).
Proof.
  rewrite iteration_unfold. change (parse "sudo") with ("sudo", "", "").
  cbv [dispatch String.eqb Ascii.eqb Bool.eqb mbind M_bind mret M_ret
       set_sudoMode cout said].
  cbn [sudoMode permissions disk cwd stdout]. by rewrite !app_assoc.
Qed.

(** In a run of the program every line is dispatched with [sudoMode]
    false: the checks of [del], [cp] and [mv] are never skipped. *)
Lemma dispatch_without_sudoMode (input : string) (w : world) :
  reachable w →
  ∃ w0, sudoMode w0 = false
        ∧ iteration input w =
          (let '(cmd, arg1, arg2) := parse input in
           f ← dispatch cmd arg1 arg2;
           match f with
           | Breaks => mret false
           | Continues => mret true
           | Falls => set_sudoMode false;; mret true
           end) w0.
Proof.
  intros Hw. exists (said (prompt w) w).
  split; [simpl; by apply reachable_sudoMode|apply iteration_unfold].
Qed.

(** [chmod a.txt 444] on [one_file] produces the store and the tree of
    [read_only]. *)
Example read_only_by_chmod :
  ∃ w, main ["chmod a.txt 444"] (start one_file home) = Ok Prompting w
       ∧ permissions w = permissions read_only ∧ disk w = disk read_only.
Proof.
  eexists. split; [vm_compute; reflexivity|]. split; vm_compute; reflexivity.
Qed.

(** C1. The override does not reach the command entered after [sudo]: with
    [a.txt] read-only, the lines [sudo] and [del a.txt] leave the store and
    the directory as they were, and the second line is answered with
    "Permission denied."; line 219 has cleared [sudoMode] at the end of the
    turn that set it. *)
Theorem sudo_then_del_is_denied :
  loop ["sudo"; "del a.txt"] read_only =
  Ok Prompting
     (said (prompt read_only +:+ YELLOW
              +:+ "Sudo mode active (for one command)." +:+ RESET +:+ nl
              +:+ prompt read_only +:+ RED +:+ "Permission denied." +:+ nl
              +:+ RESET)
           read_only).
Proof. vm_compute. reflexivity. Qed.

(** Line 219 is not what an empty line goes through: in a world where
    [sudoMode] is set while the loop waits for a line, which no run of the
    program reaches, an empty line leaves it set. *)
Lemma empty_line_keeps_flag_raised :
  iteration EmptyString flag_raised
  = Ok true (said (prompt flag_raised) flag_raised)
  ∧ sudoMode (said (prompt flag_raised) flag_raised) = true.
Proof. split; vm_compute; reflexivity. Qed.

(** C9. In a run of the program, when the command token of the line is
    empty the turn dispatches nothing and goes back to the top of the loop:
    apart from the prompt the world is as before, and [sudoMode] is false
    at the end of the turn. (The turn leaves through [continue]; the flag
    is false because it is false whenever the loop waits for a line.) *)
Theorem empty_command_skips_dispatch_and_reset (input : string) (w : world) :
  reachable w →
  (parse input).1.1 = EmptyString →
  iteration input w = Ok true (said (prompt w) w)
  ∧ sudoMode (said (prompt w) w) = false.
Proof.
  intros Hw Hcmd. split.
  - rewrite iteration_unfold.
    destruct (parse input) as [[cmd arg1] arg2]. simpl in Hcmd. by subst cmd.
  - simpl. by apply reachable_sudoMode.
Qed.

Lemma empty_command_skips_dispatch_and_reset_witness :
  ∃ w, reachable w
       ∧ (parse "   ").1.1 = EmptyString
       ∧ iteration "   " w = Ok true (said (prompt w) w)
       ∧ sudoMode (said (prompt w) w) = false.
Proof.
  eexists. split.
  { exists one_file, home, ["chmod a.txt 640"; "sudo"].
    vm_compute. reflexivity. }
  split; [reflexivity|].
  apply empty_command_skips_dispatch_and_reset; [|reflexivity].
  exists one_file, home, ["chmod a.txt 640"; "sudo"]. vm_compute. reflexivity.
Defined.

(** C3. An error can end the process: after [mkdir d] and [mkdir d/e], the
    line [del d] makes [fs::remove] throw, nothing catches the exception and
    it leaves [main], so [exit] is never read; [mkdir d/e] in an empty
    directory leaves [main] the same way. *)
Theorem del_on_populated_directory_escapes_main :
  (∃ w, main ["mkdir d"; "mkdir d/e"; "del d"; "exit"] (start ∅ home) = Throw w
        ∧ Fs.is_directory (disk w) "d" = true
        ∧ permissions w !! "d" = Some "drwxr-xr-x")
  ∧ (∃ w, main ["mkdir d/e"; "exit"] (start ∅ home) = Throw w).
Proof.
  split.
  - eexists. split; [vm_compute; reflexivity|]. split; vm_compute; reflexivity.
  - eexists. vm_compute. reflexivity.
Qed.

(** ** [moveFileCmd] *)

Lemma moved_store (src dest : string) (m : gmap string string) :
  delete src (<[dest := EmptyString]> (<[src := EmptyString]> m))
  = delete src (<[dest := EmptyString]> m).
Proof.
  apply map_eq. intros k. destruct (decide (k = src)) as [->|Hk].
  - by rewrite !lookup_delete_eq.
  - rewrite !lookup_delete_ne by done.
    destruct (decide (k = dest)) as [->|Hd].
    + by rewrite !lookup_insert_eq.
    + by rewrite !lookup_insert_ne by done.
Qed.

(** A move that gets past both checks and whose [fs::rename] succeeds gives
    [dest] the value of [permissions[src]], the empty string when [src] has
    no entry, and erases [src]. *)
Lemma moveFileCmd_moves (src dest : string) (w : world)
    (t : gmap string node) :
  Fs.exists_ (disk w) src = true →
  lacks src 2 "w" w = Ok false w →
  Fs.rename (disk w) src dest = Some t →
  moveFileCmd src dest w = Ok tt (moved_to src dest t w).
Proof.
  intros He Hl Hr. unfold moveFileCmd.
  rewrite (bind_Ok _ _ w w true) by (unfold query; by rewrite He).
  simpl. rewrite (bind_Ok _ _ _ _ _ Hl).
  unfold try_catch.
  rewrite (bind_Ok _ _ w (with_disk t w) tt)
    by (unfold update_, update; by rewrite Hr).
  unfold moved_to, on_store, subscript, mbind, M_bind.
  cbn [permissions with_disk].
  destruct (permissions w !! src) as [v|]; [reflexivity|].
  cbv [assign erase savePermissions cout with_permissions with_disk].
  cbn [sudoMode permissions disk cwd stdout default]. by rewrite moved_store.
Qed.

(** C2. Moving a file that has no entry stores the empty string for the
    destination, not the fallback literal that [get] returns for the source:
    with [a.txt] unlisted, [mv a.txt b.txt] passes the write check on
    "-rw-r--r--" and leaves [b.txt] mapped to the empty string. *)
Theorem mv_of_unlisted_file_stores_empty_string :
  ∃ w, moveFileCmd "a.txt" "b.txt" (start one_file home) = Ok tt w
       ∧ (getPermission "a.txt" (permissions (start one_file home))).1
         = "-rw-r--r--"
       ∧ permissions w !! "b.txt" = Some EmptyString
       ∧ permissions w !! "a.txt" = None
       ∧ Fs.exists_ (disk w) "b.txt" = true.
Proof.
  eexists. split; [vm_compute; reflexivity|].
  repeat split; vm_compute; reflexivity.
Qed.

(** ** Saving and loading through the directory *)

(** For a store of tokens, and unless a directory sits where the
    permissions file goes, a new process reads back what [save] wrote. *)
Lemma reload_storable (w : world) :
  storable (permissions w) →
  Fs.is_directory (disk w) PERM_FILE = false →
  reload w = Some (permissions w).
Proof.
  intros Hm Hd. unfold reload, savePermissions, loadPermissions, start.
  cbn [disk with_disk cwd permissions].
  assert (Fs.open_in (Fs.write_out (disk w) PERM_FILE
                        (save_text (permissions w))) PERM_FILE
          = Some (save_text (permissions w))) as ->.
  { unfold Fs.open_in, Fs.write_out, Fs.is_directory in *.
    destruct (disk w !! PERM_FILE) as [[|]|]; try done;
      by rewrite lookup_insert_eq. }
  cbn [with_permissions permissions]. by rewrite load_save_storable.
Qed.

(** C4. A store the program reaches need not survive [save] and a fresh
    [load]: after [mv a.txt b.txt] on an unlisted [a.txt] the store maps
    [b.txt] to the empty string, the file written holds the lone token
    [b.txt], and the new process starts with an empty store. *)
Theorem reload_after_mv_loses_the_entry :
  ∃ w, main ["mv a.txt b.txt"] (start one_file home) = Ok Prompting w
       ∧ permissions w = {[ "b.txt" := EmptyString ]}
       ∧ disk w !! PERM_FILE = Some (File ("b.txt " +:+ nl))
       ∧ reload w = Some ∅.
Proof.
  eexists. split; [vm_compute; reflexivity|].
  repeat split; vm_compute; reflexivity.
Qed.

(** ** [chmodFile] *)

(** The masks of the lambda pick the bits the specification names. *)
Lemma conv_spec_group (c : ascii) (dir : bool) :
  conv c dir = spec_group (if dir then "d" else "-")%char c.
Proof. destruct c as [[] [] [] [] [] [] [] []], dir; reflexivity. Qed.

(** Whether [char] is signed makes no difference to the group. *)
Lemma conv_signed_char (c : ascii) (dir : bool) :
  conv_int (signed_char c - 48) dir = conv c dir.
Proof. destruct c as [[] [] [] [] [] [] [] []], dir; reflexivity. Qed.

Lemma spec_group_length (flag c : ascii) : String.length (spec_group flag c) = 4.
Proof. reflexivity. Qed.

Lemma chmodFile_stores (name : string) (c0 c1 c2 : ascii) (w : world) :
  Fs.exists_ (disk w) name = true →
  chmodFile name (String c0 (String c1 (String c2 EmptyString))) w
  = Ok tt (chmodded name (conv c0 (Fs.is_directory (disk w) name)
                            +:+ conv c1 false +:+ conv c2 false) w).
Proof.
  intros He. unfold chmodFile.
  rewrite (bind_Ok _ _ w w true) by (unfold query; by rewrite He).
  reflexivity.
Qed.

(** C6. [chmod X CODE] on an existing [X] with a 3-character code stores
    the 12 characters of three 4-character groups, one per code character:
    a type flag, 'd' only in the first group and only for a directory, then
    r, w, x for the bits worth 4, 2, 1 of the character minus '0', '-'
    otherwise; for code 755 on a non-directory the groups are -rwx, -r-x,
    -r-x. *)
Theorem chmod_stores_three_groups (name code : string) (w : world) :
  Fs.exists_ (disk w) name = true →
  String.length code = 3 →
  ∃ c0 c1 c2 w',
    code = String c0 (String c1 (String c2 EmptyString))
    ∧ chmodFile name code w = Ok tt w'
    ∧ let flag := (if Fs.is_directory (disk w) name then "d" else "-")%char in
      let p := spec_group flag c0 +:+ spec_group "-" c1 +:+ spec_group "-" c2 in
      permissions w' !! name = Some p
      ∧ String.length p = 12
      ∧ (Fs.is_directory (disk w) name = false → code = "755" →
         p = "-rwx" +:+ "-r-x" +:+ "-r-x").
Proof.
  intros He Hlen.
  destruct code as [|c0 [|c1 [|c2 [|]]]]; try discriminate Hlen.
  exists c0, c1, c2. eexists. split; [done|].
  split; [by apply chmodFile_stores|].
  rewrite !conv_spec_group. cbn [chmodded permissions].
  split; [by rewrite lookup_insert_eq|]. split.
  - by rewrite !app_length, !spec_group_length.
  - intros -> [= -> -> ->]. reflexivity.
Qed.

Lemma chmod_stores_three_groups_witness :
  Fs.exists_ (disk (start one_file home)) "a.txt" = true
  ∧ String.length "755" = 3
  ∧ ∃ c0 c1 c2 w',
      "755" = String c0 (String c1 (String c2 EmptyString))
      ∧ chmodFile "a.txt" "755" (start one_file home) = Ok tt w'
      ∧ permissions w' !! "a.txt" = Some "-rwx-r-x-r-x".
Proof.
  split; [reflexivity|]. split; [reflexivity|].
  destruct (chmod_stores_three_groups "a.txt" "755" (start one_file home))
    as (c0 & c1 & c2 & w' & Hc & Hr & Hp & _ & H755);
    [reflexivity|reflexivity|].
  exists c0, c1, c2, w'. split; [exact Hc|]. split; [exact Hr|].
  rewrite Hp. f_equal. apply H755; reflexivity.
Defined.

(** ** [getPermission] as the program calls it *)

(** C7. For a name absent from the store [get] returns the fallback literal
    "-rw-r--r--"; for every name it returns a string and leaves the world,
    the store included, as it was. *)
Theorem get_returns_fallback_and_keeps_store (name : string) (w : world) :
  permissions w !! name = None →
  getPermissionM name w = Ok "-rw-r--r--" w
  ∧ (getPermission name (permissions w)).2 = permissions w
  ∧ ∀ other, ∃ perm, getPermissionM other w = Ok perm w
                     ∧ (getPermission other (permissions w)).2 = permissions w.
Proof.
  intros Habs. split; [|split].
  - by rewrite getPermissionM_run, (getPermission_absent _ _ Habs).
  - apply getPermission_store.
  - intros other. eexists. split; [apply getPermissionM_run|].
    apply getPermission_store.
Qed.

Lemma get_returns_fallback_and_keeps_store_witness :
  permissions read_only !! "b.txt" = None
  ∧ getPermissionM "b.txt" read_only = Ok "-rw-r--r--" read_only.
Proof.
  split; [reflexivity|].
  apply (get_returns_fallback_and_keeps_store "b.txt" read_only).
  reflexivity.
Defined.

(** ** [copyFileCmd] *)

(** C8. [cp SRC DEST] with [SRC] existing, [sudoMode] false and a 2nd
    character of [get(SRC)] other than 'r' reports "Permission denied (no
    read)." and does nothing else: the directory, and with it [DEST] and
    the permissions file, and the store are as before. *)
Theorem cp_without_read_permission_changes_nothing
    (src dest : string) (w : world) (c : ascii) :
  Fs.exists_ (disk w) src = true →
  sudoMode w = false →
  string_at (getPermission src (permissions w)).1 1 = Some c →
  c ≠ "r"%char →
  ∃ w', copyFileCmd src dest w = Ok tt w'
        ∧ stdout w' = stdout w +:+ RED +:+ "Permission denied (no read)."
                        +:+ nl +:+ RESET
        ∧ disk w' = disk w
        ∧ Fs.exists_ (disk w') dest = Fs.exists_ (disk w) dest
        ∧ permissions w' = permissions w
        ∧ sudoMode w' = sudoMode w.
Proof.
  intros He Hs Hc Hne.
  exists (said (RED +:+ "Permission denied (no read)." +:+ nl +:+ RESET) w).
  split; [|done]. unfold copyFileCmd.
  rewrite (bind_Ok _ _ w w true) by (unfold query; by rewrite He).
  simpl. rewrite (bind_Ok _ _ w w true); [done|].
  rewrite (lacks_checked _ _ _ c) by done.
  apply Ascii.eqb_neq in Hne. by rewrite Hne.
Qed.

Lemma cp_without_read_permission_changes_nothing_witness :
  Fs.exists_ (disk write_only) "a.txt" = true
  ∧ sudoMode write_only = false
  ∧ string_at (getPermission "a.txt" (permissions write_only)).1 1 = Some "-"%char
  ∧ ∃ w', copyFileCmd "a.txt" "b.txt" write_only = Ok tt w'
          ∧ Fs.exists_ (disk w') "b.txt" = false
          ∧ permissions w' = permissions write_only.
Proof.
  split; [reflexivity|]. split; [reflexivity|]. split; [reflexivity|].
  destruct (cp_without_read_permission_changes_nothing
              "a.txt" "b.txt" write_only "-"%char)
    as (w' & Hr & _ & _ & Hd & Hp & _);
    [reflexivity|reflexivity|reflexivity|discriminate|].
  exists w'. split; [exact Hr|]. split; [|exact Hp].
  rewrite Hd. reflexivity.
Defined.

(** ** [deleteFile] and the write flag *)

Lemma lacks_passes (name : string) (i : nat) (flag : ascii) (w : world) :
  sudoMode w = true
  ∨ string_at (getPermission name (permissions w)).1 i = Some flag →
  lacks name i flag w = Ok false w.
Proof.
  intros [Hs|Hc]; [by apply lacks_sudo|].
  destruct (sudoMode w) eqn:Hs; [by apply lacks_sudo|].
  rewrite (lacks_checked _ _ _ flag) by done. by rewrite Ascii.eqb_refl.
Qed.

(** Past both checks, on a file or an empty directory: the entry leaves the
    tree and the store, and the permissions file is written anew. *)
Lemma deleteFile_unpopulated (name : string) (w : world) :
  Fs.exists_ (disk w) name = true →
  (Fs.is_directory (disk w) name = true → Fs.populated name (disk w) = false) →
  lacks name 2 "w" w = Ok false w →
  deleteFile name w = Ok tt (deleted name (delete name (disk w)) w).
Proof.
  intros He Hd Hl. apply (deleteFile_removes _ _ true); try done.
  pose proof He as He'. unfold Fs.exists_ in He'.
  apply bool_decide_eq_true in He' as [n Hn].
  destruct n as [s|]; [by apply (remove_file _ _ s)|].
  apply remove_unpopulated; [done|]. apply Hd.
  unfold Fs.is_directory. by rewrite Hn.
Qed.

Lemma deleted_gone (name : string) (w : world) :
  let w' := deleted name (delete name (disk w)) w in
  permissions w' !! name = None
  ∧ Fs.is_directory (disk w') name = false
  ∧ (name ≠ PERM_FILE → Fs.exists_ (disk w') name = false).
Proof.
  cbn [deleted permissions disk]. split; [apply lookup_delete_eq|]. split.
  - apply is_directory_write_out. unfold Fs.is_directory.
    by rewrite lookup_delete_eq.
  - intros Hne. rewrite exists_write_out_ne by done.
    unfold Fs.exists_. rewrite lookup_delete_eq.
    apply bool_decide_eq_false_2. by intros [? ?].
Qed.

(** C10. [del] also takes directories: for an existing empty directory [D]
    with 'w' as 3rd character of its permission, or with [sudoMode] set,
    [del D] removes the directory and erases its entry; no check looks at
    the kind of [D]. (The permissions file is rewritten afterwards, so a
    directory of that very name is followed by a file.) *)
Theorem del_removes_empty_directory (D : string) (w : world) :
  Fs.is_directory (disk w) D = true →
  Fs.populated D (disk w) = false →
  sudoMode w = true
  ∨ string_at (getPermission D (permissions w)).1 2 = Some "w"%char →
  ∃ w', deleteFile D w = Ok tt w'
        ∧ Fs.is_directory (disk w') D = false
        ∧ permissions w' !! D = None
        ∧ (D ≠ PERM_FILE → Fs.exists_ (disk w') D = false)
        ∧ stdout w' = stdout w +:+ GREEN +:+ "Deleted: " +:+ D +:+ RESET +:+ nl.
Proof.
  intros Hd He Hok. exists (deleted D (delete D (disk w)) w).
  destruct (deleted_gone D w) as (Hp & Hdir & Hgone).
  split; [|done]. apply deleteFile_unpopulated; [|done|by apply lacks_passes].
  unfold Fs.is_directory in Hd. unfold Fs.exists_.
  apply bool_decide_eq_true. destruct (disk w !! D); [by eexists|done].
Qed.

Lemma del_removes_empty_directory_witness :
  Fs.is_directory (disk empty_dir) "d" = true
  ∧ Fs.populated "d" (disk empty_dir) = false
  ∧ string_at (getPermission "d" (permissions empty_dir)).1 2 = Some "w"%char
  ∧ ∃ w', deleteFile "d" empty_dir = Ok tt w'
          ∧ Fs.exists_ (disk w') "d" = false
          ∧ permissions w' !! "d" = None.
Proof.
  split; [reflexivity|]. split; [reflexivity|]. split; [reflexivity|].
  destruct (del_removes_empty_directory "d" empty_dir)
    as (w' & Hr & _ & Hp & Hgone & _);
    [reflexivity|reflexivity|right; reflexivity|].
  exists w'. split; [exact Hr|]. split; [|exact Hp].
  apply Hgone. discriminate.
Defined.

(** C5, as stated, fails in two places. On a directory that is not empty
    the write flag is there, yet [d] is not removed and no entry is erased:
    [fs::remove] throws and [deleteFile] does not return. On the permissions
    file itself the removal is followed by [savePermissions], which puts the
    file back. *)
Lemma del_leaves_the_name_in_place :
  (Fs.exists_ (disk populated_dir) "d" = true
   ∧ sudoMode populated_dir = false
   ∧ string_at (getPermission "d" (permissions populated_dir)).1 2
     = Some "w"%char
   ∧ deleteFile "d" populated_dir = Throw populated_dir)
  ∧ (Fs.exists_ (disk bare) PERM_FILE = true
     ∧ string_at (getPermission PERM_FILE (permissions bare)).1 2
       = Some "w"%char
     ∧ ∃ w', deleteFile PERM_FILE bare = Ok tt w'
             ∧ Fs.exists_ (disk w') PERM_FILE = true).
Proof.
  split; [repeat split; vm_compute; reflexivity|].
  split; [reflexivity|]. split; [reflexivity|].
  eexists. split; vm_compute; reflexivity.
Qed.

(** C5, amended. For every existing [X], with [c] the 3rd character of
    [get(X)]: when [sudoMode] is false and [c] is not 'w', [del X] answers
    "Permission denied." and changes neither the directory nor the store;
    when [sudoMode] is set, whatever the stored permission, or [c] is 'w',
    and [X] is a file or an empty directory, it removes [X], erases the
    entry of [X] and rewrites the permissions file, so that [X] is gone
    unless it names that file. *)
Theorem del_follows_the_write_flag (X : string) (w : world) (c : ascii) :
  Fs.exists_ (disk w) X = true →
  (sudoMode w = false →
   string_at (getPermission X (permissions w)).1 2 = Some c) →
  (sudoMode w = false → c ≠ "w"%char →
   ∃ w', deleteFile X w = Ok tt w'
         ∧ stdout w' = stdout w +:+ RED +:+ "Permission denied." +:+ nl
                         +:+ RESET
         ∧ disk w' = disk w ∧ permissions w' = permissions w)
  ∧ (sudoMode w = true ∨ c = "w"%char →
     (Fs.is_directory (disk w) X = true → Fs.populated X (disk w) = false) →
     ∃ w', deleteFile X w = Ok tt w'
           ∧ permissions w' = delete X (permissions w)
           ∧ disk w' = Fs.write_out (delete X (disk w)) PERM_FILE
                         (save_text (permissions w'))
           ∧ (X ≠ PERM_FILE → Fs.exists_ (disk w') X = false)).
Proof.
  intros He Hc. split.
  - intros Hs Hne.
    exists (said (RED +:+ "Permission denied." +:+ nl +:+ RESET) w).
    split; [|done]. apply deleteFile_denied; [done|].
    rewrite (lacks_checked _ _ _ c) by auto.
    apply Ascii.eqb_neq in Hne. by rewrite Hne.
  - intros Hok Hd. exists (deleted X (delete X (disk w)) w).
    destruct (deleted_gone X w) as (_ & _ & Hgone).
    split; [|done]. apply deleteFile_unpopulated; [done..|].
    apply lacks_passes.
    destruct Hok as [Hs| ->]; [by left|].
    destruct (sudoMode w) eqn:Hs; [by left|right; by apply Hc].
Qed.

Lemma del_follows_the_write_flag_witness :
  Fs.exists_ (disk read_only) "a.txt" = true
  ∧ string_at (getPermission "a.txt" (permissions read_only)).1 2
    = Some "-"%char
  ∧ ∃ w', deleteFile "a.txt" read_only = Ok tt w'
          ∧ disk w' = disk read_only
          ∧ permissions w' = permissions read_only.
Proof.
  split; [reflexivity|]. split; [reflexivity|].
  destruct (del_follows_the_write_flag "a.txt" read_only "-"%char)
    as [Hdenied _]; [reflexivity|intros _; reflexivity|].
  destruct Hdenied as (w' & Hr & _ & Hdisk & Hperm);
    [reflexivity|discriminate|].
  exists w'. split; [exact Hr|]. split; [exact Hdisk|exact Hperm].
Defined.

(** ** The stores the program reaches *)

Lemma token_not_empty (s : string) : token s → s ≠ EmptyString.
Proof. by intros [? _]. Qed.

Lemma blank_or_token_name (s : string) :
  blank_or_token s → s ≠ EmptyString → token s.
Proof. by intros [->|?]. Qed.

(** The three strings of a parsed line are tokens or empty. *)
Lemma parse_shape (input cmd arg1 arg2 : string) :
  parse input = (cmd, arg1, arg2) →
  blank_or_token cmd ∧ blank_or_token arg1 ∧ blank_or_token arg2.
Proof.
  unfold parse.
  destruct (extract input) as [[c r1]|] eqn:E1;
    [|intros [= <- <- <-]; repeat split; by left].
  apply extract_is_token in E1.
  destruct (extract r1) as [[a1 r2]|] eqn:E2;
    [|intros [= <- <- <-]; repeat split; (by left) || by right].
  apply extract_is_token in E2.
  destruct (extract r2) as [[a2 r3]|] eqn:E3;
    [|intros [= <- <- <-]; repeat split; (by left) || by right].
  apply extract_is_token in E3.
  intros [= <- <- <-]; repeat split; by right.
Qed.

Lemma load_loop_tidy (fuel : nat) (s : string) (m : gmap string string) :
  tidy_store m → tidy_store (load_loop fuel s m).
Proof.
  revert s m. induction fuel as [|fuel IH]; intros s m Hm; [done|]. simpl.
  destruct (extract s) as [[file s1]|] eqn:E1; [|done].
  destruct (extract s1) as [[perm s2]|] eqn:E2; [|done].
  apply IH, map_Forall_insert_2; [|done].
  split; [by eapply extract_is_token|right; by eapply extract_is_token].
Qed.

Lemma conv_token (c : ascii) (dir : bool) : no_space (conv c dir) = true.
Proof. destruct c as [[] [] [] [] [] [] [] []], dir; reflexivity. Qed.

Lemma no_space_app (s t : string) :
  no_space (s +:+ t) = no_space s && no_space t.
Proof.
  induction s as [|c s IH]; [reflexivity|].
  rewrite app_cons. simpl. by rewrite IH, andb_assoc.
Qed.

Lemma getPermission_shape (file : string) (m : gmap string string) :
  tidy_store m → blank_or_token (getPermission file m).1.
Proof.
  intros Hm. destruct (m !! file) as [v|] eqn:E.
  - rewrite (getPermission_present _ _ _ E). exact (proj2 (Hm _ _ E)).
  - rewrite (getPermission_absent _ _ E). right. by split.
Qed.

(** *** The tree keeps the empty path free *)

Lemma plain_write_out (t : gmap string node) (s : string) :
  plain t → plain (Fs.write_out t PERM_FILE s).
Proof.
  unfold plain, Fs.write_out. intros H.
  destruct (t !! PERM_FILE) as [[|]|]; by rewrite ?lookup_insert_ne.
Qed.

Lemma creatable_named (t : gmap string node) (p : string) :
  Fs.creatable t p = true → p ≠ EmptyString.
Proof.
  unfold Fs.creatable. intros [H _]%andb_prop.
  apply negb_true_iff in H. by apply String.eqb_neq.
Qed.

Lemma exists_named (t : gmap string node) (p : string) :
  plain t → Fs.exists_ t p = true → p ≠ EmptyString.
Proof.
  unfold plain, Fs.exists_. intros Ht [n Hn]%bool_decide_eq_true ->.
  by rewrite Ht in Hn.
Qed.

Lemma remove_plain (t t' : gmap string node) (p : string) (b : bool) :
  plain t → Fs.remove t p = Some (b, t') → plain t'.
Proof.
  unfold plain, Fs.remove. intros Ht.
  destruct (t !! p) as [[|]|]; [| destruct (Fs.populated p t) |];
    intros [= <- <-]; try done; by apply lookup_delete_None; right.
Qed.

Lemma create_directory_plain (t t' : gmap string node) (p : string) :
  plain t → Fs.create_directory t p = Some (true, t') →
  plain t' ∧ p ≠ EmptyString.
Proof.
  unfold plain, Fs.create_directory. intros Ht.
  destruct (t !! p) as [[|]|]; try done.
  destruct (Fs.creatable t p) eqn:Hc; [|done]. intros [= <-].
  apply creatable_named in Hc. split; [|done]. by rewrite lookup_insert_ne.
Qed.

Lemma copy_file_plain (t t' : gmap string node) (from to : string) :
  plain t → Fs.copy_file t from to = Some t' → plain t' ∧ to ≠ EmptyString.
Proof.
  unfold plain, Fs.copy_file. intros Ht.
  destruct (t !! from) as [[s|]|]; try done.
  destruct (t !! to) as [[s'|]|] eqn:Hto.
  - destruct (String.eqb from to); [done|]. intros [= <-].
    assert (to ≠ EmptyString) by (intros ->; by rewrite Ht in Hto).
    split; [|done]. by rewrite lookup_insert_ne.
  - done.
  - destruct (Fs.creatable t to) eqn:Hc; [|done]. intros [= <-].
    apply creatable_named in Hc. split; [|done]. by rewrite lookup_insert_ne.
Qed.

Lemma rekey_named (from to k : string) :
  to ≠ EmptyString → k ≠ EmptyString → Fs.rekey from to k ≠ EmptyString.
Proof.
  unfold Fs.rekey. intros Hto Hk.
  destruct (_ || _); [|done]. destruct to; [done|]. by rewrite app_cons.
Qed.

Lemma moved_plain (t : gmap string node) (from to : string) :
  to ≠ EmptyString → plain t → plain (Fs.moved from to t).
Proof.
  unfold plain, Fs.moved. intros Hto Ht.
  apply not_elem_of_list_to_map_1. rewrite <-list_fmap_compose.
  intros ([k n] & Hk & Hin)%list_elem_of_fmap. simpl in Hk.
  apply elem_of_map_to_list in Hin.
  symmetry in Hk. apply rekey_named in Hk; [done..|].
  intros ->. by rewrite Ht in Hin.
Qed.

Lemma rename_plain (t t' : gmap string node) (from to : string) :
  plain t → Fs.rename t from to = Some t' → plain t' ∧ to ≠ EmptyString.
Proof.
  unfold Fs.rename. intros Ht.
  destruct (t !! from) as [n|] eqn:Hfrom; [|done].
  assert (from ≠ EmptyString) as Hf.
  { intros ->. unfold plain in Ht. by rewrite Ht in Hfrom. }
  destruct (String.eqb_spec from to) as [<-|Hne]; [by intros [= <-]|].
  destruct (Fs.inside from to); [done|].
  assert (∀ x, t !! to = Some x → to ≠ EmptyString) as Hto.
  { intros x Hx ->. unfold plain in Ht. by rewrite Ht in Hx. }
  assert (∀ s, to ≠ EmptyString → plain (<[to := File s]> (delete from t)))
    as Hins.
  { intros s H. unfold plain. rewrite lookup_insert_ne by done.
    apply lookup_delete_None. by right. }
  destruct n as [s|], (t !! to) as [[s'|]|] eqn:E; try done.
  - intros [= <-]. split; [apply Hins|]; by eapply Hto.
  - destruct (Fs.creatable t to) eqn:Hc; [|done]. intros [= <-].
    apply creatable_named in Hc. split; [by apply Hins|done].
  - destruct (Fs.populated to t); [done|]. intros [= <-].
    assert (to ≠ EmptyString) by by eapply Hto. split; [|done].
    apply moved_plain; [done|]. apply lookup_delete_None. by right.
  - destruct (Fs.creatable t to) eqn:Hc; [|done]. intros [= <-].
    apply creatable_named in Hc. split; [|done]. by apply moved_plain.
Qed.

(** *** Computations that leave store and tree alone *)

Lemma quiet_ret {A} (a : A) : quiet (mret a : M A).
Proof. by intros w a' w' [= _ <-]. Qed.

Lemma quiet_bind {A B} (c : M A) (f : A → M B) :
  quiet c → (∀ a, quiet (f a)) → quiet (c ≫= f).
Proof.
  intros Hc Hf w b w'. unfold mbind, M_bind.
  destruct (c w) as [a w1| |] eqn:E; [|done..].
  intros [-> ->]%Hf. by apply Hc in E.
Qed.

Lemma quiet_cout (s : string) : quiet (cout s).
Proof. by intros w a w' [= _ <-]. Qed.

Lemma quiet_query {A} (f : gmap string node → A) : quiet (query f).
Proof. by intros w a w' [= _ <-]. Qed.

Lemma quiet_char_at (s : string) (i : nat) : quiet (char_at s i).
Proof.
  intros w a w'. unfold char_at. destruct (string_at s i); [|done].
  by intros [= _ <-].
Qed.

Lemma quiet_getPermissionM (file : string) : quiet (getPermissionM file).
Proof. intros w a w'. rewrite getPermissionM_run. by intros [= _ <-]. Qed.

Lemma quiet_for_each {A} (body : A → M unit) (l : list A) :
  (∀ x, quiet (body x)) → quiet (for_each body l).
Proof.
  intros Hb. induction l as [|x l IH]; simpl; [apply quiet_ret|].
  apply quiet_bind; [apply Hb|by intros _].
Qed.

Lemma quiet_lacks (name : string) (i : nat) (flag : ascii) :
  quiet (lacks name i flag).
Proof.
  unfold lacks. apply quiet_bind; [by intros w a w' [= _ <-]|].
  intros []; simpl; [apply quiet_ret|].
  apply quiet_bind; [apply quiet_getPermissionM|]. intros perm.
  apply quiet_bind; [apply quiet_char_at|]. intros c. apply quiet_ret.
Qed.

Lemma quiet_printPermissions (perm name : string) :
  quiet (printPermissions perm name).
Proof.
  unfold printPermissions. apply quiet_bind; [apply quiet_char_at|].
  intros c. apply quiet_cout.
Qed.

Lemma quiet_listFiles : quiet listFiles.
Proof.
  unfold listFiles. apply quiet_bind; [apply quiet_cout|]. intros _.
  apply quiet_bind; [apply quiet_query|]. intros names.
  apply quiet_for_each. intros name.
  apply quiet_bind; [apply quiet_getPermissionM|]. intros perm.
  apply quiet_printPermissions.
Qed.

Lemma quiet_showHelp : quiet showHelp.
Proof. apply quiet_for_each, quiet_cout. Qed.

Lemma quiet_showPerm (name : string) : quiet (showPerm name).
Proof.
  unfold showPerm. apply quiet_bind; [apply quiet_query|].
  intros []; simpl; [|apply quiet_cout].
  apply quiet_bind; [apply quiet_getPermissionM|]. intros perm.
  apply quiet_cout.
Qed.

Lemma quiet_tidy {A} (c : M A) (w w' : world) (a : A) :
  quiet c → c w = Ok a w' → tidy w → tidy w'.
Proof. intros Hc [Hp Hd]%Hc. unfold tidy. by rewrite Hp, Hd. Qed.

(** *** The commands that write *)

Lemma saved_tidy (m : gmap string string) (t : gmap string node) (w : world)
    (s : string) :
  plain t → tidy_store m →
  tidy (said s (with_disk (Fs.write_out t PERM_FILE (save_text m))
                          (with_permissions m w))).
Proof. intros Ht Hm. split; [by apply plain_write_out|done]. Qed.

Lemma makeDir_tidy (name : string) (w w' : world) :
  blank_or_token name → tidy w → makeDir name w = Ok tt w' → tidy w'.
Proof.
  intros Hn [Hd Hs]. unfold makeDir, update, mbind, M_bind.
  destruct (Fs.create_directory (disk w) name) as [[[] t]|] eqn:E; [| |done].
  - apply create_directory_plain in E as [Ht Hne]; [|done].
    intros [= <-]. split; [by apply plain_write_out|].
    apply map_Forall_insert_2; [|done].
    split; [by apply blank_or_token_name|right; by split].
  - intros [= <-]. split; [|done]. cbn [disk cout with_disk].
    revert E. unfold Fs.create_directory.
    destruct (disk w !! name) as [[|]|]; try done; [by intros [= <-]|].
    by destruct (Fs.creatable _ _).
Qed.

Lemma removeDir_tidy (name : string) (w w' : world) :
  tidy w → removeDir name w = Ok tt w' → tidy w'.
Proof.
  intros [Hd Hs]. unfold removeDir, query, query_throwing, update, mbind, M_bind.
  destruct (Fs.exists_ (disk w) name); [|by intros [= <-]]. simpl.
  destruct (Fs.is_directory (disk w) name); [|by intros [= <-]]. simpl.
  destruct (Fs.is_empty (disk w) name) as [[]|]; [| by intros [= <-] |done].
  destruct (Fs.remove (disk w) name) as [[b t]|] eqn:E; [|done].
  apply remove_plain in E; [|done]. intros [= <-].
  split; [by apply plain_write_out|by apply map_Forall_delete].
Qed.

Lemma deleteFile_tidy (name : string) (w w' : world) :
  tidy w → deleteFile name w = Ok tt w' → tidy w'.
Proof.
  intros Hw. unfold deleteFile, query. unfold mbind at 1, M_bind at 1.
  destruct (Fs.exists_ (disk w) name); [|by intros [= <-]]. simpl.
  unfold mbind at 1, M_bind at 1.
  destruct (lacks name 2 "w" w) as [denied w1| |] eqn:El; [|done..].
  apply quiet_lacks in El as Hq. destruct Hq as [Hp1 Hd1].
  destruct Hw as [Hd Hs]. rewrite <-Hd1 in Hd. rewrite <-Hp1 in Hs.
  destruct denied; [by intros [= <-]|].
  unfold update, mbind, M_bind.
  destruct (Fs.remove (disk w1) name) as [[b t]|] eqn:E; [|done].
  apply remove_plain in E; [|done]. intros [= <-].
  split; [by apply plain_write_out|by apply map_Forall_delete].
Qed.

Lemma chmodFile_tidy (name permCode : string) (w w' : world) :
  blank_or_token name → tidy w → chmodFile name permCode w = Ok tt w' →
  tidy w'.
Proof.
  intros Hn [Hd Hs]. unfold chmodFile, query, char_at, mbind, M_bind.
  destruct (Fs.exists_ (disk w) name) eqn:He; [|by intros [= <-]]. simpl.
  destruct (negb _); [by intros [= <-]|].
  destruct (string_at permCode 0) as [c0|]; [|done].
  destruct (string_at permCode 1) as [c1|]; [|done].
  destruct (string_at permCode 2) as [c2|]; [|done].
  intros [= <-]. split; [by apply plain_write_out|].
  apply map_Forall_insert_2; [|done]. split.
  - apply blank_or_token_name; [done|by eapply exists_named].
  - right. split; [by unfold conv, conv_int; rewrite app_cons|].
    by rewrite !no_space_app, !conv_token.
Qed.

Lemma copyFileCmd_tidy (src dest : string) (w w' : world) :
  blank_or_token dest → tidy w → copyFileCmd src dest w = Ok tt w' → tidy w'.
Proof.
  intros Hn Hw. unfold copyFileCmd, query. unfold mbind at 1, M_bind at 1.
  destruct (Fs.exists_ (disk w) src); [|by intros [= <-]]. simpl.
  unfold mbind at 1, M_bind at 1.
  destruct (lacks src 1 "r" w) as [denied w1| |] eqn:El; [|done..].
  apply quiet_lacks in El as Hq. destruct Hq as [Hp1 Hd1].
  destruct Hw as [Hd Hs]. rewrite <-Hd1 in Hd. rewrite <-Hp1 in Hs.
  destruct denied; [by intros [= <-]|].
  unfold try_catch, update_, update. unfold mbind at 1, M_bind at 1.
  destruct (Fs.copy_file (disk w1) src dest) as [t|] eqn:E; simpl;
    [|by intros [= <-]].
  apply copy_file_plain in E as [Ht Hne]; [|done].
  unfold mbind at 1, M_bind at 1. rewrite getPermissionM_run.
  intros [= <-]. split; [by apply plain_write_out|].
  apply map_Forall_insert_2; [|done].
  split; [by apply blank_or_token_name|by apply getPermission_shape].
Qed.

Lemma moveFileCmd_tidy (src dest : string) (w w' : world) :
  blank_or_token src → blank_or_token dest → tidy w →
  moveFileCmd src dest w = Ok tt w' → tidy w'.
Proof.
  intros Hsrc Hn Hw. unfold moveFileCmd, query. unfold mbind at 1, M_bind at 1.
  destruct (Fs.exists_ (disk w) src) eqn:He; [|by intros [= <-]]. simpl.
  unfold mbind at 1, M_bind at 1.
  destruct (lacks src 2 "w" w) as [denied w1| |] eqn:El; [|done..].
  apply quiet_lacks in El as Hq. destruct Hq as [Hp1 Hd1].
  assert (token src) as Htok.
  { apply blank_or_token_name; [done|]. eapply exists_named; [apply Hw|done]. }
  destruct Hw as [Hd Hs]. rewrite <-Hd1 in Hd. rewrite <-Hp1 in Hs.
  destruct denied; [by intros [= <-]|].
  unfold try_catch, update_, update. unfold mbind at 1, M_bind at 1.
  destruct (Fs.rename (disk w1) src dest) as [t|] eqn:E; simpl;
    [|by intros [= <-]].
  apply rename_plain in E as [Ht Hne]; [|done].
  unfold on_store, subscript, mbind, M_bind. cbn [permissions with_disk].
  destruct (permissions w1 !! src) as [v|] eqn:Ev; intros [= <-];
    (split; [by apply plain_write_out|]); cbn [permissions].
  - apply map_Forall_delete, map_Forall_insert_2; [|done].
    split; [by apply blank_or_token_name|exact (proj2 (Hs _ _ Ev))].
  - apply map_Forall_delete, map_Forall_insert_2.
    { split; [by apply blank_or_token_name|by left]. }
    apply map_Forall_insert_2; [|done]. split; [done|by left].
Qed.

(** *** The loop *)

Lemma then_ret_inv {A} (c : M unit) (a b : A) (w w' : world) :
  (c;; mret a) w = Ok b w' → c w = Ok tt w'.
Proof.
  unfold mbind, M_bind, mret, M_ret. destruct (c w) as [[] w1| |]; [|done..].
  by intros [= _ <-].
Qed.

Lemma dispatch_tidy (cmd arg1 arg2 : string) (w w' : world) (f : flow) :
  blank_or_token arg1 → blank_or_token arg2 → tidy w →
  dispatch cmd arg1 arg2 w = Ok f w' → tidy w'.
Proof.
  intros H1 H2 Hw. unfold dispatch.
  destruct (String.eqb cmd "exit"); [by intros [= _ <-]|].
  destruct (String.eqb cmd "ls").
  { intros H%then_ret_inv. by eapply quiet_tidy, Hw; [apply quiet_listFiles|]. }
  destruct (String.eqb cmd "mkdir").
  { intros H%then_ret_inv. by apply (makeDir_tidy arg1 w). }
  destruct (String.eqb cmd "rmdir").
  { intros H%then_ret_inv. by apply (removeDir_tidy arg1 w). }
  destruct (String.eqb cmd "del").
  { intros H%then_ret_inv. by apply (deleteFile_tidy arg1 w). }
  destruct (String.eqb cmd "chmod").
  { intros H%then_ret_inv. by apply (chmodFile_tidy arg1 arg2 w). }
  destruct (String.eqb cmd "perm").
  { intros H%then_ret_inv. by eapply quiet_tidy, Hw; [apply quiet_showPerm|]. }
  destruct (String.eqb cmd "cp").
  { intros H%then_ret_inv. by apply (copyFileCmd_tidy arg1 arg2 w). }
  destruct (String.eqb cmd "mv").
  { intros H%then_ret_inv. by apply (moveFileCmd_tidy arg1 arg2 w). }
  destruct (String.eqb cmd "help").
  { intros H%then_ret_inv. by eapply quiet_tidy, Hw; [apply quiet_showHelp|]. }
  destruct (String.eqb cmd "sudo"); [by intros [= _ <-]|].
  destruct (String.eqb cmd EmptyString); by intros [= _ <-].
Qed.

Lemma iteration_tidy (input : string) (w w' : world) (b : bool) :
  tidy w → iteration input w = Ok b w' → tidy w'.
Proof.
  intros Hw. rewrite iteration_unfold.
  destruct (parse input) as [[cmd arg1] arg2] eqn:Hp.
  apply parse_shape in Hp as (_ & H1 & H2).
  unfold mbind at 1, M_bind at 1.
  destruct (dispatch cmd arg1 arg2 _) as [f w1| |] eqn:E; [|done..].
  apply dispatch_tidy in E; [|done..].
  destruct f; by intros [= _ <-].
Qed.

Lemma loop_tidy (inputs : list string) (w w' : world) (st : status) :
  tidy w → loop inputs w = Ok st w' → tidy w'.
Proof.
  revert w. induction inputs as [|input rest IH]; intros w Hw; simpl.
  - by intros [= _ <-].
  - unfold mbind, M_bind.
    destruct (iteration input w) as [b w1| |] eqn:E; [|done..].
    apply iteration_tidy in E; [|done].
    destruct b; [by apply IH|by intros [= _ <-]].
Qed.

(** Started in a directory with no entry of empty name, the program only
    ever holds names that are tokens and permission strings that are
    tokens or empty. *)
Lemma session_tidy (t : gmap string node) (dir : string)
    (inputs : list string) (w : world) (st : status) :
  plain t →
  (loadPermissions;; banner;; loop inputs) (start t dir) = Ok st w →
  tidy w.
Proof.
  intros Ht. unfold mbind at 1, M_bind at 1.
  destruct (loadPermissions (start t dir)) as [[] w0| |] eqn:E0; [|done..].
  assert (tidy w0) as H0.
  { revert E0. unfold loadPermissions. cbn [start disk permissions].
    destruct (Fs.open_in t PERM_FILE); intros [= <-]; (split; [done|]).
    - apply load_loop_tidy, map_Forall_empty.
    - apply map_Forall_empty. }
  unfold mbind at 1, M_bind at 1.
  destruct (banner w0) as [[] w1| |] eqn:E1; [|done..].
  assert (tidy w1) as H1 by (revert E1; by intros [= <-]).
  by apply loop_tidy.
Qed.

(** So the only thing that keeps a reached store from surviving [save] and
    a fresh [load] is an empty permission string, or a directory in the
    place of the permissions file. *)
Lemma session_reload (t : gmap string node) (dir : string)
    (inputs : list string) (w : world) (st : status) :
  plain t →
  (loadPermissions;; banner;; loop inputs) (start t dir) = Ok st w →
  (∀ k, permissions w !! k ≠ Some EmptyString) →
  Fs.is_directory (disk w) PERM_FILE = false →
  reload w = Some (permissions w).
Proof.
  intros Ht Hrun Hne Hd. apply reload_storable; [|done].
  destruct (session_tidy _ _ _ _ _ Ht Hrun) as [_ Hs].
  intros k v Hkv. destruct (Hs k v Hkv) as [Hk [->|Hv]]; [|done].
  by destruct (Hne k).
Qed.

(** *** What the empty string leads to *)

(** Once [mv] has stored the empty string for a name, [del] on that name
    reads past the end of the string. *)
Example del_after_mv_is_undefined :
  main ["mv a.txt b.txt"; "del b.txt"] (start one_file home) = Undefined.
Proof. vm_compute. reflexivity. Qed.

(** On any directory that is not empty, [del] past its checks throws and
    leaves everything as it was. *)
Lemma deleteFile_populated_throws (name : string) (w : world) :
  Fs.is_directory (disk w) name = true →
  Fs.populated name (disk w) = true →
  sudoMode w = true
  ∨ string_at (getPermission name (permissions w)).1 2 = Some "w"%char →
  deleteFile name w = Throw w.
Proof.
  intros Hd Hp Hok. apply deleteFile_throws.
  - unfold Fs.is_directory in Hd. unfold Fs.exists_.
    apply bool_decide_eq_true. destruct (disk w !! name); [by eexists|done].
  - by apply lacks_passes.
  - by apply remove_populated.
Qed.

(** * Further properties *)

(** ** Loading *)

Lemma foldr_assign_union (l : list (string * string))
    (m0 : gmap string string) :
  foldr (λ p m, <[p.1 := p.2]> m) m0 l = list_to_map l ∪ m0.
Proof.
  induction l as [|[k v] l IH]; simpl.
  - by rewrite (left_id_L ∅ (∪)).
  - by rewrite IH, insert_union_l.
Qed.

Lemma foldl_assign_union (l : list (string * string))
    (m0 : gmap string string) :
  foldl (λ m p, <[p.1 := p.2]> m) m0 l = list_to_map (reverse l) ∪ m0.
Proof.
  rewrite <-foldr_assign_union. revert m0.
  induction l as [|p l IH]; intros m0; [done|].
  rewrite reverse_cons, foldr_app. simpl. apply IH.
Qed.

(** X1. Loading a text made of name and permission tokens, one pair per
    line, assigns the pairs in order on top of the store: a name that
    occurs twice ends with its last permission, names not in the text keep
    theirs. *)
Theorem load_assigns_in_order (l : list (string * string))
    (m0 : gmap string string) :
  Forall (λ p, token p.1 ∧ token p.2) l →
  load_text (render l) m0 = list_to_map (reverse l) ∪ m0.
Proof.
  intros Hl. unfold load_text.
  rewrite load_loop_render by (done || apply render_length).
  apply foldl_assign_union.
Qed.

Lemma load_assigns_in_order_witness :
  Forall (λ p, token p.1 ∧ token p.2) [("a", "x"); ("b", "y"); ("a", "z")]
  ∧ load_text (render [("a", "x"); ("b", "y"); ("a", "z")]) {[ "c" := "u" ]}
    !! "a" = Some "z".
Proof.
  assert (Forall (λ p : string * string, token p.1 ∧ token p.2)
            [("a", "x"); ("b", "y"); ("a", "z")]) as H.
  { repeat constructor; discriminate. }
  split; [exact H|].
  rewrite (load_assigns_in_order _ {[ "c" := "u" ]} H). reflexivity.
Defined.

(** X2. On a store whose names and permission strings are tokens, loading
    what [save] wrote puts every saved entry back, over whatever the
    loading store held before. *)
Theorem load_after_save_overrides (m m0 : gmap string string) :
  storable m → load_text (save_text m) m0 = m ∪ m0.
Proof.
  intros Hm. unfold load_text, save_text.
  rewrite load_loop_render.
  - rewrite foldl_assign_union. f_equal.
    rewrite <-(list_to_map_to_list m) at 2. apply list_to_map_proper.
    + rewrite reverse_Permutation, entries_Permutation.
      apply NoDup_fst_map_to_list.
    + by rewrite reverse_Permutation, entries_Permutation.
  - rewrite entries_Permutation. apply Forall_forall.
    intros [k v] Hkv%elem_of_map_to_list. exact (Hm k v Hkv).
  - apply render_length.
Qed.

Lemma load_after_save_overrides_witness :
  storable (permissions two_entries)
  ∧ load_text (save_text (permissions two_entries)) {[ "d" := "drwxr-xr-x" ]}
    = permissions two_entries.
Proof.
  assert (storable (permissions two_entries)) as H.
  { intros k v. cbn [permissions two_entries].
    intros [[<- <-]|[_ [<- <-]%lookup_singleton_Some]]%lookup_insert_Some;
      repeat split; discriminate. }
  split; [exact H|].
  rewrite (load_after_save_overrides _ {[ "d" := "drwxr-xr-x" ]} H).
  vm_compute. reflexivity.
Defined.

(** ** What a command does to the store and to the permissions file *)

Lemma not_in_one (k a : string) : k ∉ [a] → k ≠ a.
Proof. intros H ->. apply H. constructor. Qed.

Lemma not_in_two (k a b : string) : k ∉ [a; b] → a ≠ k ∧ b ≠ k.
Proof. intros H. split; intros ->; apply H; repeat constructor. Qed.

Lemma write_out_synced (t : gmap string node) (m : gmap string string) :
  Fs.write_out t PERM_FILE (save_text m) !! PERM_FILE = Some Dir
  ∨ Fs.write_out t PERM_FILE (save_text m) !! PERM_FILE
    = Some (File (save_text m)).
Proof.
  unfold Fs.write_out. destruct (t !! PERM_FILE) as [[|]|] eqn:E;
    [right; apply lookup_insert_eq|by left|right; apply lookup_insert_eq].
Qed.

Lemma effect_untouched (names : list string) (w w' : world) :
  untouched w w' → effect names w w'.
Proof. intros [Hp Hd]. split; [by left|]. intros k _. by rewrite Hp. Qed.

Lemma effect_quiet {A} (c : M A) (names : list string) (w w' : world) (a : A) :
  quiet c → c w = Ok a w' → effect names w w'.
Proof. intros Hc H%Hc. by apply effect_untouched. Qed.

Lemma makeDir_effect (name : string) (w w' : world) :
  makeDir name w = Ok tt w' → effect [name] w w'.
Proof.
  unfold makeDir, update, mbind, M_bind.
  destruct (Fs.create_directory (disk w) name) as [[[] t]|] eqn:E; [| |done].
  - intros [= <-]. split; [right; apply write_out_synced|].
    intros k Hk. cbn [permissions]. apply lookup_insert_ne. by apply not_eq_sym, not_in_one.
  - intros [= <-]. apply effect_untouched. split; [done|].
    cbn [disk cout with_disk]. revert E. unfold Fs.create_directory.
    destruct (disk w !! name) as [[|]|]; try done; [by intros [= <-]|].
    by destruct (Fs.creatable _ _).
Qed.

Lemma removeDir_effect (name : string) (w w' : world) :
  removeDir name w = Ok tt w' → effect [name] w w'.
Proof.
  unfold removeDir, query, query_throwing, update, mbind, M_bind.
  destruct (Fs.exists_ (disk w) name);
    [|intros [= <-]; by apply effect_untouched]. simpl.
  destruct (Fs.is_directory (disk w) name);
    [|intros [= <-]; by apply effect_untouched]. simpl.
  destruct (Fs.is_empty (disk w) name) as [[]|];
    [|intros [= <-]; by apply effect_untouched|done].
  destruct (Fs.remove (disk w) name) as [[b t]|] eqn:E; [|done].
  intros [= <-]. split; [right; apply write_out_synced|].
  intros k Hk. cbn [permissions]. apply lookup_delete_ne. by apply not_eq_sym, not_in_one.
Qed.

Lemma lacks_same (name : string) (i : nat) (flag : ascii) (w w' : world)
    (b : bool) :
  lacks name i flag w = Ok b w' → w' = w.
Proof.
  unfold lacks, get_sudoMode, mbind, M_bind.
  destruct (sudoMode w); simpl; [by intros [= _ <-]|].
  rewrite getPermissionM_run. unfold char_at.
  destruct (string_at _ _); [by intros [= _ <-]|done].
Qed.

Lemma deleteFile_effect (name : string) (w w' : world) :
  deleteFile name w = Ok tt w' → effect [name] w w'.
Proof.
  unfold deleteFile, query. unfold mbind at 1, M_bind at 1.
  destruct (Fs.exists_ (disk w) name);
    [|intros [= <-]; by apply effect_untouched]. simpl.
  unfold mbind at 1, M_bind at 1.
  destruct (lacks name 2 "w" w) as [denied w1| |] eqn:El; [|done..].
  apply lacks_same in El as ->.
  destruct denied; [intros [= <-]; by apply effect_untouched|].
  unfold update, mbind, M_bind.
  destruct (Fs.remove (disk w) name) as [[b t]|] eqn:E; [|done].
  intros [= <-]. split; [right; apply write_out_synced|].
  intros k Hk. cbn [permissions]. apply lookup_delete_ne. by apply not_eq_sym, not_in_one.
Qed.

Lemma chmodFile_effect (name permCode : string) (w w' : world) :
  chmodFile name permCode w = Ok tt w' → effect [name] w w'.
Proof.
  unfold chmodFile, query, char_at, mbind, M_bind.
  destruct (Fs.exists_ (disk w) name);
    [|intros [= <-]; by apply effect_untouched]. simpl.
  destruct (negb _); [intros [= <-]; by apply effect_untouched|].
  destruct (string_at permCode 0) as [c0|]; [|done].
  destruct (string_at permCode 1) as [c1|]; [|done].
  destruct (string_at permCode 2) as [c2|]; [|done].
  intros [= <-]. split; [right; apply write_out_synced|].
  intros k Hk. cbn [permissions]. apply lookup_insert_ne. by apply not_eq_sym, not_in_one.
Qed.

Lemma copyFileCmd_effect (src dest : string) (w w' : world) :
  copyFileCmd src dest w = Ok tt w' → effect [dest] w w'.
Proof.
  unfold copyFileCmd, query. unfold mbind at 1, M_bind at 1.
  destruct (Fs.exists_ (disk w) src);
    [|intros [= <-]; by apply effect_untouched]. simpl.
  unfold mbind at 1, M_bind at 1.
  destruct (lacks src 1 "r" w) as [denied w1| |] eqn:El; [|done..].
  apply lacks_same in El as ->.
  destruct denied; [intros [= <-]; by apply effect_untouched|].
  unfold try_catch, update_, update. unfold mbind at 1, M_bind at 1.
  destruct (Fs.copy_file (disk w) src dest) as [t|] eqn:E; simpl;
    [|intros [= <-]; by apply effect_untouched].
  unfold mbind at 1, M_bind at 1. rewrite getPermissionM_run.
  intros [= <-]. split; [right; apply write_out_synced|].
  intros k Hk. cbn [permissions]. apply lookup_insert_ne. by apply not_eq_sym, not_in_one.
Qed.

Lemma moveFileCmd_effect (src dest : string) (w w' : world) :
  moveFileCmd src dest w = Ok tt w' → effect [src; dest] w w'.
Proof.
  intros H. destruct (Fs.exists_ (disk w) src) eqn:He.
  2:{ unfold moveFileCmd in H.
      rewrite (bind_Ok _ _ w w false) in H by (unfold query; by rewrite He).
      injection H as <-. by apply effect_untouched. }
  unfold moveFileCmd in H.
  rewrite (bind_Ok _ _ w w true) in H by (unfold query; by rewrite He).
  simpl in H.
  destruct (lacks src 2 "w" w) as [denied w1| |] eqn:El.
  - pose proof (lacks_same _ _ _ _ _ _ El) as ->.
    rewrite (bind_Ok _ _ _ _ _ El) in H.
    destruct denied; [injection H as <-; by apply effect_untouched|].
    destruct (Fs.rename (disk w) src dest) as [t|] eqn:Er.
    + pose proof (moveFileCmd_moves _ _ _ t He El Er) as Hm.
      unfold moveFileCmd in Hm.
      rewrite (bind_Ok _ _ w w true) in Hm by (unfold query; by rewrite He).
      simpl in Hm. rewrite (bind_Ok _ _ _ _ _ El) in Hm.
      rewrite Hm in H. injection H as <-.
      split; [right; apply write_out_synced|].
      intros k [H1 H2]%not_in_two. cbn [moved_to permissions].
      by rewrite lookup_delete_ne, lookup_insert_ne by done.
    + unfold try_catch in H.
      rewrite (bind_Throw _ _ w w) in H
        by (unfold update_, update; by rewrite Er).
      injection H as <-. by apply effect_untouched.
  - by rewrite (bind_Throw _ _ _ _ El) in H.
  - by rewrite (bind_Undefined _ _ _ El) in H.
Qed.

Lemma effect_weaken (n1 n2 : list string) (w w' : world) :
  (∀ k, k ∈ n1 → k ∈ n2) → effect n1 w w' → effect n2 w w'.
Proof.
  intros Hn [H1 H2]. split; [done|]. intros k Hk. apply H2.
  intros Hin. by apply Hk, Hn.
Qed.

Lemma dispatch_effect (cmd arg1 arg2 : string) (w w' : world) (f : flow) :
  dispatch cmd arg1 arg2 w = Ok f w' → effect [arg1; arg2] w w'.
Proof.
  unfold dispatch.
  destruct (String.eqb cmd "exit");
    [intros [= _ <-]; by apply effect_untouched|].
  destruct (String.eqb cmd "ls").
  { intros H%then_ret_inv. by eapply effect_quiet; [apply quiet_listFiles|]. }
  destruct (String.eqb cmd "mkdir").
  { intros H%then_ret_inv%makeDir_effect.
    eapply effect_weaken; [|done].
    intros k ->%list_elem_of_singleton; repeat constructor. }
  destruct (String.eqb cmd "rmdir").
  { intros H%then_ret_inv%removeDir_effect.
    eapply effect_weaken; [|done].
    intros k ->%list_elem_of_singleton; repeat constructor. }
  destruct (String.eqb cmd "del").
  { intros H%then_ret_inv%deleteFile_effect.
    eapply effect_weaken; [|done].
    intros k ->%list_elem_of_singleton; repeat constructor. }
  destruct (String.eqb cmd "chmod").
  { intros H%then_ret_inv%chmodFile_effect.
    eapply effect_weaken; [|done].
    intros k ->%list_elem_of_singleton; repeat constructor. }
  destruct (String.eqb cmd "perm").
  { intros H%then_ret_inv. by eapply effect_quiet; [apply quiet_showPerm|]. }
  destruct (String.eqb cmd "cp").
  { intros H%then_ret_inv%copyFileCmd_effect.
    eapply effect_weaken; [|done].
    intros k ->%list_elem_of_singleton; repeat constructor. }
  destruct (String.eqb cmd "mv").
  { by intros H%then_ret_inv%moveFileCmd_effect. }
  destruct (String.eqb cmd "help").
  { intros H%then_ret_inv. by eapply effect_quiet; [apply quiet_showHelp|]. }
  destruct (String.eqb cmd "sudo");
    [intros [= _ <-]; by apply effect_untouched|].
  destruct (String.eqb cmd EmptyString);
    intros [= _ <-]; by apply effect_untouched.
Qed.

Lemma iteration_effect (input : string) (w w' : world) (b : bool) :
  iteration input w = Ok b w' →
  effect [(parse input).1.2; (parse input).2] w w'.
Proof.
  rewrite iteration_unfold.
  destruct (parse input) as [[cmd arg1] arg2]. cbn [fst snd].
  unfold mbind at 1, M_bind at 1.
  destruct (dispatch cmd arg1 arg2 _) as [f w1| |] eqn:E; [|done..].
  apply dispatch_effect in E.
  assert (effect [arg1; arg2] w w1) as Hw1 by exact E.
  destruct f; intros [= _ <-]; exact Hw1.
Qed.

(** X3. One turn of the loop either leaves the store and the directory as
    they were, or ends with the permissions file rewritten from the store:
    afterwards the file holds exactly the text of the store (unless a
    directory sits in its place). *)
Theorem every_change_is_saved (input : string) (w w' : world) (b : bool) :
  iteration input w = Ok b w' → untouched w w' ∨ synced w'.
Proof. intros H. exact (proj1 (iteration_effect _ _ _ _ H)). Qed.

Lemma every_change_is_saved_witness :
  ∃ w', iteration "chmod a.txt 640" (start one_file home) = Ok true w'
        ∧ (untouched (start one_file home) w' ∨ synced w').
Proof.
  eexists. split; [vm_compute; reflexivity|].
  apply (every_change_is_saved "chmod a.txt 640" (start one_file home) _ true).
  vm_compute. reflexivity.
Defined.

(** X4. One turn of the loop changes no entry of the store other than those
    of the two arguments on the line. *)
Theorem other_entries_stay (input : string) (w w' : world) (b : bool)
    (k : string) :
  iteration input w = Ok b w' →
  k ≠ (parse input).1.2 → k ≠ (parse input).2 →
  permissions w' !! k = permissions w !! k.
Proof.
  intros H H1 H2. apply (proj2 (iteration_effect _ _ _ _ H)).
  intros [->| ->%list_elem_of_singleton]%elem_of_cons; done.
Qed.

Lemma other_entries_stay_witness :
  ∃ w', iteration "mv a.txt b.txt" two_entries = Ok true w'
        ∧ "d" ≠ (parse "mv a.txt b.txt").1.2
        ∧ "d" ≠ (parse "mv a.txt b.txt").2
        ∧ permissions w' !! "d" = Some "d---------".
Proof.
  eexists. split; [vm_compute; reflexivity|].
  split; [discriminate|]. split; [discriminate|].
  rewrite (other_entries_stay "mv a.txt b.txt" two_entries _ true "d");
    [reflexivity|vm_compute; reflexivity|discriminate|discriminate].
Defined.

(** ** Whole sessions *)

Lemma main_session (inputs : list string) (w0 w : world) (st : status) :
  main inputs w0 = Ok st w →
  ∃ w1, (loadPermissions;; banner;; loop inputs) w0 = Ok st w1
        ∧ permissions w = permissions w1 ∧ disk w = disk w1.
Proof.
  intros H. unfold main in H.
  destruct (loadPermissions w0) as [[] wa| |] eqn:Ea;
    [|by rewrite (bind_Throw _ _ _ _ Ea) in H
     |by rewrite (bind_Undefined _ _ _ Ea) in H].
  rewrite (bind_Ok _ _ _ _ _ Ea) in H. rewrite (bind_Ok _ _ _ _ _ Ea).
  destruct (banner wa) as [[] wb| |] eqn:Eb;
    [|by rewrite (bind_Throw _ _ _ _ Eb) in H
     |by rewrite (bind_Undefined _ _ _ Eb) in H].
  rewrite (bind_Ok _ _ _ _ _ Eb) in H. rewrite (bind_Ok _ _ _ _ _ Eb).
  destruct (loop inputs wb) as [st1 w1| |] eqn:El;
    [|by rewrite (bind_Throw _ _ _ _ El) in H
     |by rewrite (bind_Undefined _ _ _ El) in H].
  rewrite (bind_Ok _ _ _ _ _ El) in H. exists w1.
  destruct st1; injection H as <- <-; done.
Qed.

(** X5. Started in a directory that has no entry of empty name, the program
    only ever holds names that are non-empty and free of whitespace, and
    permission strings that are free of whitespace. *)
Theorem session_store_shape (t : gmap string node) (dir : string)
    (inputs : list string) (w : world) (st : status) :
  plain t →
  main inputs (start t dir) = Ok st w →
  ∀ k v, permissions w !! k = Some v →
         k ≠ EmptyString ∧ no_space k = true ∧ no_space v = true.
Proof.
  intros Ht (w1 & Hrun & Hp & _)%main_session k v. rewrite Hp.
  destruct (session_tidy _ _ _ _ _ Ht Hrun) as [_ Hs].
  intros Hkv. destruct (Hs k v Hkv) as [[? ?] [->|[_ ?]]]; by repeat split.
Qed.

Lemma session_store_shape_witness :
  plain one_file
  ∧ ∃ w, main ["mkdir d"; "cp a.txt d/b"; "mv d e"; "exit"]
              (start one_file home) = Ok Exited w
         ∧ ∀ k v, permissions w !! k = Some v →
                  k ≠ EmptyString ∧ no_space k = true ∧ no_space v = true.
Proof.
  split; [reflexivity|]. eexists. split; [vm_compute; reflexivity|].
  apply (session_store_shape one_file home
           ["mkdir d"; "cp a.txt d/b"; "mv d e"; "exit"] _ Exited);
    [reflexivity|vm_compute; reflexivity].
Defined.

(** X6. A store the program reached survives [save] and a fresh [load] in
    the same directory whenever it holds no empty permission string and no
    directory sits in the place of the permissions file. *)
Theorem session_store_survives_restart (t : gmap string node) (dir : string)
    (inputs : list string) (w : world) (st : status) :
  plain t →
  main inputs (start t dir) = Ok st w →
  (∀ k, permissions w !! k ≠ Some EmptyString) →
  Fs.is_directory (disk w) PERM_FILE = false →
  reload w = Some (permissions w).
Proof.
  intros Ht (w1 & Hrun & Hp & Hd)%main_session Hne Hdir.
  apply reload_storable; [|done]. rewrite Hp.
  destruct (session_tidy _ _ _ _ _ Ht Hrun) as [_ Hs].
  intros k v Hkv. destruct (Hs k v Hkv) as [Hk [->|Hv]]; [|done].
  destruct (Hne k). by rewrite Hp.
Qed.

Lemma session_store_survives_restart_witness :
  plain one_file
  ∧ ∃ w, main ["chmod a.txt 640"] (start one_file home) = Ok Prompting w
         ∧ Fs.is_directory (disk w) PERM_FILE = false
         ∧ reload w = Some (permissions w).
Proof.
  split; [reflexivity|]. eexists. split; [vm_compute; reflexivity|].
  split; [vm_compute; reflexivity|].
  apply (session_store_survives_restart one_file home ["chmod a.txt 640"]
           _ Prompting);
    [reflexivity|vm_compute; reflexivity| |vm_compute; reflexivity].
  intros k.
  match goal with |- permissions ?w !! _ ≠ _ =>
    assert (permissions w = {[ "a.txt" := "-rw--r------" ]}) as ->
      by (vm_compute; reflexivity)
  end.
  by intros [_ [=]]%lookup_singleton_Some.
Defined.

(** ** [makeDir] and [removeDir] *)

Lemma is_directory_write_out_true (t : gmap string node) (p q s : string) :
  Fs.is_directory t q = true →
  Fs.is_directory (Fs.write_out t p s) q = true.
Proof.
  unfold Fs.is_directory, Fs.write_out. intros H.
  destruct (t !! p) as [[|]|] eqn:E; try done;
    (destruct (decide (p = q)) as [->|];
      [by rewrite E in H|by rewrite lookup_insert_ne]).
Qed.

Lemma exists_write_out (t : gmap string node) (p q s : string) :
  Fs.exists_ t q = true → Fs.exists_ (Fs.write_out t p s) q = true.
Proof.
  unfold Fs.exists_, Fs.write_out. rewrite !bool_decide_eq_true.
  intros H. destruct (t !! p) as [[|]|]; try done;
    (destruct (decide (p = q)) as [->|];
      [rewrite lookup_insert_eq; by eexists|by rewrite lookup_insert_ne]).
Qed.

Lemma is_directory_exists (t : gmap string node) (p : string) :
  Fs.is_directory t p = true → t !! p = Some Dir ∧ Fs.exists_ t p = true.
Proof.
  unfold Fs.is_directory, Fs.exists_. by destruct (t !! p) as [[|]|].
Qed.

(** X7. [mkdir NAME] for a name that is free and whose parent directory is
    there creates the directory, stores "drwxr-xr-x" for it and rewrites
    the permissions file. *)
Theorem mkdir_creates_and_registers (name : string) (w : world) :
  disk w !! name = None →
  Fs.creatable (disk w) name = true →
  ∃ w', makeDir name w = Ok tt w'
        ∧ Fs.is_directory (disk w') name = true
        ∧ permissions w' = <[name := "drwxr-xr-x"]> (permissions w)
        ∧ (getPermission name (permissions w')).1 = "drwxr-xr-x"
        ∧ synced w'
        ∧ stdout w' = stdout w +:+ GREEN +:+ "Directory created: " +:+ name
                        +:+ RESET +:+ nl.
Proof.
  intros Hfree Hc. eexists. split.
  { unfold makeDir.
    rewrite (bind_Ok _ _ w (with_disk (<[name := Dir]> (disk w)) w) true).
    - reflexivity.
    - unfold update, Fs.create_directory. by rewrite Hfree, Hc. }
  cbn [permissions disk stdout with_disk with_permissions].
  split; [|split; [done|split; [|split; [apply write_out_synced|done]]]].
  - apply is_directory_write_out_true. unfold Fs.is_directory.
    by rewrite lookup_insert_eq.
  - by rewrite (getPermission_present _ "drwxr-xr-x")
      by apply lookup_insert_eq.
Qed.

Lemma mkdir_creates_and_registers_witness :
  disk (start one_file home) !! "docs" = None
  ∧ Fs.creatable (disk (start one_file home)) "docs" = true
  ∧ ∃ w', makeDir "docs" (start one_file home) = Ok tt w'
          ∧ Fs.is_directory (disk w') "docs" = true
          ∧ (getPermission "docs" (permissions w')).1 = "drwxr-xr-x".
Proof.
  split; [reflexivity|]. split; [reflexivity|].
  destruct (mkdir_creates_and_registers "docs" (start one_file home))
    as (w' & Hr & Hd & _ & Hg & _); [reflexivity|reflexivity|].
  exists w'. split; [exact Hr|]. split; [exact Hd|exact Hg].
Defined.

(** X8. [mkdir NAME] on a name that already is a directory prints "Failed
    to create directory." and changes nothing: the directory keeps the
    permission it had. *)
Theorem mkdir_on_existing_directory_changes_nothing (name : string)
    (w : world) :
  Fs.is_directory (disk w) name = true →
  makeDir name w
  = Ok tt (said (RED +:+ "Failed to create directory." +:+ nl +:+ RESET) w).
Proof.
  intros [Hd _]%is_directory_exists. unfold makeDir.
  rewrite (bind_Ok _ _ w (with_disk (disk w) w) false).
  - by destruct w.
  - unfold update, Fs.create_directory. by rewrite Hd.
Qed.

Lemma mkdir_on_existing_directory_changes_nothing_witness :
  Fs.is_directory (disk two_entries) "d" = true
  ∧ makeDir "d" two_entries
    = Ok tt (said (RED +:+ "Failed to create directory." +:+ nl +:+ RESET)
                  two_entries).
Proof.
  split; [reflexivity|].
  apply (mkdir_on_existing_directory_changes_nothing "d" two_entries).
  reflexivity.
Defined.

(** What [removeDir] does, case by case. *)
Lemma removeDir_run (name : string) (w : world) :
  removeDir name w =
  Ok tt
    (if negb (Fs.exists_ (disk w) name)
     then said (RED +:+ "Not found." +:+ nl +:+ RESET) w
     else if negb (Fs.is_directory (disk w) name)
     then said (RED +:+ "Not a directory." +:+ nl +:+ RESET) w
     else if Fs.populated name (disk w)
     then said (YELLOW +:+ "Directory not empty." +:+ nl +:+ RESET) w
     else removed name w).
Proof.
  unfold removeDir.
  rewrite (bind_Ok _ _ w w (Fs.exists_ (disk w) name)) by done.
  destruct (Fs.exists_ (disk w) name); [|done]. simpl.
  rewrite (bind_Ok _ _ w w (Fs.is_directory (disk w) name)) by done.
  destruct (Fs.is_directory (disk w) name) eqn:Hd; [|done]. simpl.
  apply is_directory_exists in Hd as [Hd _].
  rewrite (bind_Ok _ _ w w (negb (Fs.populated name (disk w))))
    by (unfold query_throwing, Fs.is_empty; by rewrite Hd).
  destruct (Fs.populated name (disk w)) eqn:Hp; [done|]. simpl.
  rewrite (bind_Ok _ _ w (with_disk (delete name (disk w)) w) true)
    by (unfold update, Fs.remove; by rewrite Hd, Hp).
  reflexivity.
Qed.

(** X9. [rmdir] on an existing name that is not a directory prints "Not a
    directory."; on a directory that [is_empty] finds not empty it prints
    "Directory not empty.". In both cases nothing else happens: [remove] is
    not called, and store and tree stay as they were. *)
Theorem rmdir_refuses_without_removing (name : string) (w : world) :
  Fs.exists_ (disk w) name = true →
  (Fs.is_directory (disk w) name = false →
   removeDir name w
   = Ok tt (said (RED +:+ "Not a directory." +:+ nl +:+ RESET) w))
  ∧ (Fs.is_directory (disk w) name = true →
     Fs.is_empty (disk w) name = Some false →
     removeDir name w
     = Ok tt (said (YELLOW +:+ "Directory not empty." +:+ nl +:+ RESET) w)).
Proof.
  intros He. rewrite removeDir_run, He. split.
  - by intros ->.
  - intros Hd. rewrite Hd. unfold Fs.is_empty.
    apply is_directory_exists in Hd as [-> _].
    intros [= Hp%negb_false_iff]. by rewrite Hp.
Qed.

Lemma rmdir_refuses_without_removing_witness :
  Fs.exists_ (disk populated_dir) "d" = true
  ∧ Fs.is_directory (disk populated_dir) "d" = true
  ∧ Fs.is_empty (disk populated_dir) "d" = Some false
  ∧ removeDir "d" populated_dir
    = Ok tt (said (YELLOW +:+ "Directory not empty." +:+ nl +:+ RESET)
                  populated_dir).
Proof.
  split; [reflexivity|]. split; [reflexivity|]. split; [reflexivity|].
  apply (rmdir_refuses_without_removing "d" populated_dir);
    reflexivity.
Defined.

(** X10. [rmdir NAME] on an empty directory removes it, erases its entry
    and rewrites the permissions file; neither the stored permission nor
    [sudoMode] is consulted. *)
Theorem rmdir_removes_empty_directory (name : string) (w : world) :
  Fs.is_directory (disk w) name = true →
  Fs.populated name (disk w) = false →
  ∃ w', removeDir name w = Ok tt w'
        ∧ permissions w' = delete name (permissions w)
        ∧ Fs.is_directory (disk w') name = false
        ∧ (name ≠ PERM_FILE → Fs.exists_ (disk w') name = false)
        ∧ synced w'.
Proof.
  intros Hd Hp. exists (removed name w). split.
  { rewrite removeDir_run, Hd, Hp.
    apply is_directory_exists in Hd as [_ ->]. done. }
  cbn [removed permissions disk]. split; [done|]. split; [|split].
  - apply is_directory_write_out. unfold Fs.is_directory.
    by rewrite lookup_delete_eq.
  - intros Hne. rewrite exists_write_out_ne by done.
    unfold Fs.exists_. rewrite lookup_delete_eq.
    apply bool_decide_eq_false_2. by intros [? ?].
  - apply write_out_synced.
Qed.

Lemma rmdir_removes_empty_directory_witness :
  Fs.is_directory (disk two_entries) "d" = true
  ∧ Fs.populated "d" (disk two_entries) = false
  ∧ string_at (getPermission "d" (permissions two_entries)).1 2
    = Some "-"%char
  ∧ ∃ w', removeDir "d" two_entries = Ok tt w'
          ∧ Fs.exists_ (disk w') "d" = false
          ∧ permissions w' !! "d" = None.
Proof.
  split; [reflexivity|]. split; [reflexivity|]. split; [reflexivity|].
  destruct (rmdir_removes_empty_directory "d" two_entries)
    as (w' & Hr & Hp & _ & Hgone & _); [reflexivity|reflexivity|].
  exists w'. split; [exact Hr|]. split; [apply Hgone; discriminate|].
  rewrite Hp. apply lookup_delete_eq.
Defined.

(** ** The commands that only read: [ls], [perm], [help] *)

Lemma app_nil_r (s : string) : s +:+ EmptyString = s.
Proof. induction s as [|c s IH]; [done|]. by rewrite app_cons, IH. Qed.

Lemma said_nothing (w : world) : said EmptyString w = w.
Proof. destruct w. unfold said. simpl. by rewrite app_nil_r. Qed.

Lemma said_said (s1 s2 : string) (w : world) :
  said s2 (said s1 w) = said (s1 +:+ s2) w.
Proof. unfold said. simpl. by rewrite app_assoc. Qed.

Lemma only_prints_ret {A} (a : A) : only_prints (mret a : M A).
Proof. intros w. exists a, EmptyString. by rewrite said_nothing. Qed.

Lemma only_prints_cout (s : string) : only_prints (cout s).
Proof. intros w. by exists tt, s. Qed.

Lemma only_prints_bind {A B} (c : M A) (f : A → M B) :
  only_prints c → (∀ a, only_prints (f a)) → only_prints (c ≫= f).
Proof.
  intros Hc Hf w. destruct (Hc w) as (a & s1 & H1).
  destruct (Hf a (said s1 w)) as (b & s2 & H2).
  exists b, (s1 +:+ s2). by rewrite (bind_Ok _ _ _ _ _ H1), H2, said_said.
Qed.

Lemma only_prints_query {A} (f : gmap string node → A) : only_prints (query f).
Proof. intros w. exists (f (disk w)), EmptyString. by rewrite said_nothing. Qed.

Lemma only_prints_getPermissionM (file : string) :
  only_prints (getPermissionM file).
Proof.
  intros w. eexists _, EmptyString.
  by rewrite getPermissionM_run, said_nothing.
Qed.

Lemma only_prints_for_each {A} (body : A → M unit) (l : list A) :
  (∀ x, only_prints (body x)) → only_prints (for_each body l).
Proof.
  intros Hb. induction l as [|x l IH]; simpl; [apply only_prints_ret|].
  apply only_prints_bind; [apply Hb|by intros _].
Qed.

(** [perm[0]] is inside every string, the empty one included. *)
Lemma string_at_0 (s : string) : ∃ c, string_at s 0 = Some c.
Proof. destruct s; by eexists. Qed.

Lemma only_prints_printPermissions (perm name : string) :
  only_prints (printPermissions perm name).
Proof.
  unfold printPermissions. apply only_prints_bind.
  - intros w. destruct (string_at_0 perm) as [c Hc].
    exists c, EmptyString. unfold char_at. by rewrite Hc, said_nothing.
  - intros c. apply only_prints_cout.
Qed.

Lemma only_prints_returned {A} (c : M A) (w w' : world) (a : A) :
  only_prints c → c w = Ok a w' → ∃ s, w' = said s w.
Proof.
  intros Hc H. destruct (Hc w) as (a' & s & Hs). rewrite Hs in H.
  injection H as _ <-. by exists s.
Qed.

Lemma showPerm_only_prints (name : string) : only_prints (showPerm name).
Proof.
  unfold showPerm. apply only_prints_bind; [apply only_prints_query|].
  intros []; simpl; [|apply only_prints_cout].
  apply only_prints_bind; [apply only_prints_getPermissionM|].
  intros perm. apply only_prints_cout.
Qed.

Lemma listFiles_only_prints : only_prints listFiles.
Proof.
  unfold listFiles. apply only_prints_bind; [apply only_prints_cout|].
  intros _. apply only_prints_bind; [apply only_prints_query|].
  intros names. apply only_prints_for_each. intros x.
  apply only_prints_bind; [apply only_prints_getPermissionM|].
  intros perm. apply only_prints_printPermissions.
Qed.

(** X11. When [ls], [perm NAME] or [help] returns, it has done nothing but
    print: store, tree and [sudoMode] are as before. [perm] and [ls] make
    no entry for a name that has none, and an entry holding the empty
    string is printed without reading outside it. *)
Theorem reading_commands_only_print (name : string) (w w' : world) :
  listFiles w = Ok tt w' ∨ showPerm name w = Ok tt w'
  ∨ showHelp w = Ok tt w' →
  ∃ s, w' = said s w.
Proof.
  intros [H|[H|H]]; revert H; apply only_prints_returned.
  - apply listFiles_only_prints.
  - apply showPerm_only_prints.
  - apply only_prints_for_each, only_prints_cout.
Qed.

Lemma reading_commands_only_print_witness :
  showPerm "b.txt" lost_permission
  = Ok tt (said (YELLOW +:+ "b.txt" +:+ ": " +:+ RESET +:+ nl) lost_permission)
  ∧ ∃ s, said (YELLOW +:+ "b.txt" +:+ ": " +:+ RESET +:+ nl) lost_permission
         = said s lost_permission.
Proof.
  split; [reflexivity|].
  apply (reading_commands_only_print "b.txt" lost_permission).
  right. left. reflexivity.
Defined.

Lemma printPermissions_run (perm name : string) (w : world) :
  printPermissions perm name w
  = Ok tt (said (color_of perm +:+ perm +:+ "  " +:+ name +:+ RESET +:+ nl) w).
Proof.
  unfold printPermissions, char_at, mbind, M_bind.
  destruct perm as [|c perm]; [reflexivity|].
  cbn [string_at String.get]. unfold color_of.
  destruct c as [[] [] [] [] [] [] [] []]; reflexivity.
Qed.

Lemma ls_lines_run (names : list string) (w : world) :
  for_each (λ name, perm ← getPermissionM name; printPermissions perm name)
           names w
  = Ok tt (said (ls_text (permissions w) names) w).
Proof.
  revert w. induction names as [|name rest IH]; intros w; simpl.
  - by rewrite said_nothing.
  - rewrite (bind_Ok _ _ w (said (ls_line (permissions w) name) w) tt).
    + by rewrite IH, said_said.
    + rewrite (bind_Ok _ _ _ _ _ (getPermissionM_run name w)).
      apply printPermissions_run.
Qed.

Lemma top_level_lists (t : gmap string node) :
  lists_directory t (Fs.top_level t).
Proof.
  unfold lists_directory, Fs.top_level. split.
  - apply NoDup_filter, NoDup_fst_map_to_list.
  - intros k. rewrite list_elem_of_filter, list_elem_of_fmap. split.
    + intros [[? ?] ([k' n] & -> & Hin%elem_of_map_to_list)].
      split; [by eexists|done].
    + intros [[n Hn] [? ?]]. split; [done|].
      exists (k, n). split; [done|]. by apply elem_of_map_to_list.
Qed.

(** X12. When [ls] returns it has printed an empty line and then one line
    for each entry of the working directory, each entry once, in the order
    of the listing: the stored permission of the entry, or the fallback
    when it has none, two blanks and the name; the line is blue when the
    permission starts with 'd', else green when it holds a 'w', else
    yellow. *)
Theorem ls_prints_one_line_per_entry (w w' : world) :
  listFiles w = Ok tt w' →
  ∃ names, lists_directory (disk w) names
           ∧ w' = said (nl +:+ ls_text (permissions w) names) w.
Proof.
  intros H. exists (Fs.top_level (disk w)). split; [apply top_level_lists|].
  revert H. unfold listFiles.
  rewrite (bind_Ok _ _ w (said nl w) tt) by done.
  rewrite (bind_Ok _ _ (said nl w) (said nl w) (Fs.top_level (disk w)))
    by done.
  rewrite ls_lines_run, said_said. by intros [= <-].
Qed.

Lemma ls_prints_one_line_per_entry_witness :
  ∃ w', listFiles populated_dir = Ok tt w'
        ∧ ∃ names, lists_directory (disk populated_dir) names
                   ∧ w' = said (nl +:+ ls_text (permissions populated_dir)
                                         names) populated_dir.
Proof.
  eexists. split; [vm_compute; reflexivity|].
  apply (ls_prints_one_line_per_entry populated_dir).
  vm_compute. reflexivity.
Defined.

(** ** [chmodFile] again *)

(** X13. [chmod] never indexes the code outside its bounds, whatever the
    name and the code: the three characters are read only after the length
    was found to be 3. When it returns on a missing name or on a code of
    another length, store and tree are as they were. *)
Theorem chmod_never_indexes_outside_the_code (name code : string)
    (w : world) :
  chmodFile name code w ≠ Undefined
  ∧ ∀ w', chmodFile name code w = Ok tt w' →
          Fs.exists_ (disk w) name = false ∨ String.length code ≠ 3 →
          untouched w w'.
Proof.
  destruct (Fs.exists_ (disk w) name) eqn:He.
  - destruct code as [|c0 [|c1 [|c2 [|c3 code]]]];
      try (unfold chmodFile;
           rewrite (bind_Ok _ _ w w true) by (unfold query; by rewrite He);
           split; [done|]; by intros w' [= <-]).
    rewrite (chmodFile_stores _ _ _ _ _ He). split; [done|].
    intros w' _ [?|Hl]; [done|by destruct Hl].
  - unfold chmodFile.
    rewrite (bind_Ok _ _ w w false) by (unfold query; by rewrite He).
    split; [done|]. by intros w' [= <-].
Qed.

Lemma string_at_group (flag c : ascii) (rest : string) :
  string_at (spec_group flag c +:+ rest) 1
  = Some (if Z.testbit (Z.of_N (N_of_ascii c) - 48) 2 then "r" else "-")%char
  ∧ string_at (spec_group flag c +:+ rest) 2
    = Some (if Z.testbit (Z.of_N (N_of_ascii c) - 48) 1 then "w" else "-")%char.
Proof. done. Qed.

(** X14. After [chmod X c0c1c2] the checks of [del], [mv] and [cp] on [X]
    look at the first digit only: with [sudoMode] false, [del X] and
    [mv X _] are refused exactly when the bit worth 2 of [c0 - '0'] is
    clear, [cp X _] exactly when the bit worth 4 is clear, whatever the
    other two digits grant. *)
Theorem chmod_first_digit_decides (X : string) (c0 c1 c2 : ascii)
    (w : world) :
  Fs.exists_ (disk w) X = true →
  sudoMode w = false →
  let n := (Z.of_N (N_of_ascii c0) - 48)%Z in
  ∃ w1, chmodFile X (String c0 (String c1 (String c2 EmptyString))) w
        = Ok tt w1
      ∧ lacks X 2 "w" w1 = Ok (negb (Z.testbit n 1)) w1
      ∧ lacks X 1 "r" w1 = Ok (negb (Z.testbit n 2)) w1
      ∧ (Z.testbit n 1 = false →
         deleteFile X w1
         = Ok tt (said (RED +:+ "Permission denied." +:+ nl +:+ RESET) w1)
         ∧ ∀ dest, moveFileCmd X dest w1
                   = Ok tt (said (RED +:+ "Permission denied (no write)."
                                    +:+ nl +:+ RESET) w1))
      ∧ (Z.testbit n 2 = false →
         ∀ dest, copyFileCmd X dest w1
                 = Ok tt (said (RED +:+ "Permission denied (no read)."
                                  +:+ nl +:+ RESET) w1)).
Proof.
  intros He Hs n. eexists. split; [by apply chmodFile_stores|].
  set (p := conv c0 _ +:+ _).
  set (w1 := chmodded X p w).
  assert (Fs.exists_ (disk w1) X = true) as He1 by by apply exists_write_out.
  assert ((getPermission X (permissions w1)).1 = p) as Hp.
  { by rewrite (getPermission_present _ p) by apply lookup_insert_eq. }
  destruct (string_at_group (if Fs.is_directory (disk w) X then "d" else "-")
              c0 (conv c1 false +:+ conv c2 false)) as [H1 H2].
  rewrite <-conv_spec_group in H1, H2. fold p n in H1, H2.
  assert (sudoMode w1 = false) as Hs1 by exact Hs.
  rewrite <-Hp in H1, H2.
  assert (lacks X 2 "w" w1 = Ok (negb (Z.testbit n 1)) w1) as Hw.
  { rewrite (lacks_checked X 2 "w" _ w1 Hs1 H2).
    by destruct (Z.testbit n 1). }
  assert (lacks X 1 "r" w1 = Ok (negb (Z.testbit n 2)) w1) as Hr.
  { rewrite (lacks_checked X 1 "r" _ w1 Hs1 H1).
    by destruct (Z.testbit n 2). }
  split; [done|]. split; [done|]. split.
  - intros Hbit. rewrite Hbit in Hw. split.
    + by apply deleteFile_denied.
    + intros dest. unfold moveFileCmd.
      rewrite (bind_Ok _ _ w1 w1 true) by (unfold query; by rewrite He1).
      simpl. by rewrite (bind_Ok _ _ _ _ _ Hw).
  - intros Hbit dest. rewrite Hbit in Hr. unfold copyFileCmd.
    rewrite (bind_Ok _ _ w1 w1 true) by (unfold query; by rewrite He1).
    simpl. by rewrite (bind_Ok _ _ _ _ _ Hr).
Qed.

Lemma chmod_first_digit_decides_witness :
  Fs.exists_ (disk (start one_file home)) "a.txt" = true
  ∧ sudoMode (start one_file home) = false
  ∧ ∃ w1, chmodFile "a.txt" "477" (start one_file home) = Ok tt w1
          ∧ deleteFile "a.txt" w1
            = Ok tt (said (RED +:+ "Permission denied." +:+ nl +:+ RESET) w1).
Proof.
  split; [reflexivity|]. split; [reflexivity|].
  destruct (chmod_first_digit_decides "a.txt" "4" "7" "7"
              (start one_file home))
    as (w1 & Hr & _ & _ & Hdel & _); [reflexivity|reflexivity|].
  exists w1. split; [exact Hr|]. apply Hdel. reflexivity.
Defined.

Lemma conv_low_bits (c : ascii) (dir : bool) :
  conv c dir = conv_int (Z.of_N (N_of_ascii c mod 8)) dir.
Proof. destruct c as [[] [] [] [] [] [] [] []], dir; reflexivity. Qed.

(** X15. [chmod] does not check that the code is made of octal digits: a
    character acts as its character code modulo 8, so that '8' and '9'
    act as '0' and '1', and a letter as some digit. *)
Theorem conv_reads_the_code_modulo_8 (c c' : ascii) (dir : bool) :
  (N_of_ascii c mod 8 = N_of_ascii c' mod 8)%N → conv c dir = conv c' dir.
Proof. intros H. by rewrite !conv_low_bits, H. Qed.

Lemma conv_reads_the_code_modulo_8_witness :
  (N_of_ascii "9" mod 8 = N_of_ascii "a" mod 8)%N
  ∧ conv "9" false = conv "1" false ∧ conv "a" false = conv "1" false.
Proof.
  split; [reflexivity|]. split.
  - apply (conv_reads_the_code_modulo_8 "9" "1" false). reflexivity.
  - apply (conv_reads_the_code_modulo_8 "a" "1" false). reflexivity.
Defined.

(** ** [copyFileCmd] and [moveFileCmd] past their checks *)

Lemma copy_file_exists (t t' : gmap string node) (from to : string) :
  Fs.copy_file t from to = Some t' → Fs.exists_ t from = true.
Proof.
  unfold Fs.copy_file, Fs.exists_. destruct (t !! from); [|done].
  intros _. apply bool_decide_eq_true. by eexists.
Qed.

Lemma rename_exists (t t' : gmap string node) (from to : string) :
  Fs.rename t from to = Some t' → Fs.exists_ t from = true.
Proof.
  unfold Fs.rename, Fs.exists_. destruct (t !! from); [|done].
  intros _. apply bool_decide_eq_true. by eexists.
Qed.

(** X16. A copy that gets past the read check and whose [copy_file]
    succeeds gives [DEST] an entry of its own holding [get(SRC)], the
    fallback literal included when [SRC] has no entry, and rewrites the
    permissions file; the entry of [SRC] is not touched. *)
Theorem cp_copies_the_permission (src dest : string) (w : world)
    (t : gmap string node) :
  Fs.copy_file (disk w) src dest = Some t →
  sudoMode w = true
  ∨ string_at (getPermission src (permissions w)).1 1 = Some "r"%char →
  ∃ w', copyFileCmd src dest w = Ok tt w'
        ∧ permissions w'
          = <[dest := (getPermission src (permissions w)).1]> (permissions w)
        ∧ (getPermission dest (permissions w')).1
          = (getPermission src (permissions w)).1
        ∧ disk w' = Fs.write_out t PERM_FILE (save_text (permissions w'))
        ∧ stdout w' = stdout w +:+ GREEN +:+ "Copied " +:+ src +:+ " → "
                        +:+ dest +:+ RESET +:+ nl.
Proof.
  intros Hc Hok. eexists. split.
  { unfold copyFileCmd.
    rewrite (bind_Ok _ _ w w true)
      by (unfold query; by rewrite (copy_file_exists _ _ _ _ Hc)).
    simpl. rewrite (bind_Ok _ _ _ _ _ (lacks_passes _ _ _ _ Hok)).
    unfold try_catch.
    rewrite (bind_Ok _ _ w (with_disk t w) tt)
      by (unfold update_, update; by rewrite Hc).
    rewrite (bind_Ok _ _ _ _ _ (getPermissionM_run src (with_disk t w))).
    reflexivity. }
  cbn [permissions disk stdout with_disk with_permissions].
  split; [done|]. split; [|done].
  by rewrite (getPermission_present _ (getPermission src (permissions w)).1)
    by apply lookup_insert_eq.
Qed.

Lemma cp_copies_the_permission_witness :
  Fs.copy_file (disk (start one_file home)) "a.txt" "b.txt"
  = Some (<["b.txt" := File "hi"]> one_file)
  ∧ string_at (getPermission "a.txt" (permissions (start one_file home))).1 1
    = Some "r"%char
  ∧ ∃ w', copyFileCmd "a.txt" "b.txt" (start one_file home) = Ok tt w'
          ∧ permissions w' = {[ "b.txt" := "-rw-r--r--" ]}.
Proof.
  split; [reflexivity|]. split; [reflexivity|].
  destruct (cp_copies_the_permission "a.txt" "b.txt" (start one_file home)
              (<["b.txt" := File "hi"]> one_file))
    as (w' & Hr & Hp & _); [reflexivity|right; reflexivity|].
  exists w'. split; [exact Hr|]. rewrite Hp. reflexivity.
Defined.

Lemma lacks_never_throws (name : string) (i : nat) (flag : ascii)
    (w w' : world) :
  lacks name i flag w ≠ Throw w'.
Proof.
  unfold lacks, get_sudoMode, mbind, M_bind.
  destruct (sudoMode w); simpl; [done|].
  rewrite getPermissionM_run. unfold char_at. by destruct (string_at _ _).
Qed.

Lemma try_catch_cout (body : M unit) (s : string) (w w' : world) :
  try_catch body (cout s) w ≠ Throw w'.
Proof. unfold try_catch. by destruct (body w) eqn:E. Qed.

(** X17. Once the existence test on the source has answered, no exception
    leaves [cp] or [mv]: a [filesystem_error] of [copy_file] or [rename]
    is caught by the handler, whatever the destination and the state of
    the directory. *)
Theorem cp_and_mv_catch_what_they_try (src dest : string) (w w' : world) :
  Fs.exists_ (disk w) src = true →
  copyFileCmd src dest w ≠ Throw w' ∧ moveFileCmd src dest w ≠ Throw w'.
Proof.
  intros He. split.
  - unfold copyFileCmd.
    rewrite (bind_Ok _ _ w w true) by (unfold query; by rewrite He).
    simpl. destruct (lacks src 1 "r" w) as [denied w1| |] eqn:El.
    + rewrite (bind_Ok _ _ _ _ _ El). destruct denied; [done|].
      apply try_catch_cout.
    + by destruct (lacks_never_throws _ _ _ _ _ El).
    + by rewrite (bind_Undefined _ _ _ El).
  - unfold moveFileCmd.
    rewrite (bind_Ok _ _ w w true) by (unfold query; by rewrite He).
    simpl. destruct (lacks src 2 "w" w) as [denied w1| |] eqn:El.
    + rewrite (bind_Ok _ _ _ _ _ El). destruct denied; [done|].
      apply try_catch_cout.
    + by destruct (lacks_never_throws _ _ _ _ _ El).
    + by rewrite (bind_Undefined _ _ _ El).
Qed.

Lemma cp_and_mv_catch_what_they_try_witness :
  Fs.exists_ (disk two_entries) "a.txt" = true
  ∧ copyFileCmd "a.txt" "d" two_entries ≠ Throw two_entries
  ∧ moveFileCmd "a.txt" "d" two_entries ≠ Throw two_entries.
Proof.
  split; [reflexivity|].
  apply (cp_and_mv_catch_what_they_try "a.txt" "d" two_entries two_entries).
  reflexivity.
Defined.

(** X18. When [copy_file] fails after the checks were passed, [cp] prints
    "Copy failed." and leaves store and tree as they were. *)
Theorem cp_failure_is_caught (src dest : string) (w : world) :
  Fs.exists_ (disk w) src = true →
  sudoMode w = true
  ∨ string_at (getPermission src (permissions w)).1 1 = Some "r"%char →
  Fs.copy_file (disk w) src dest = None →
  copyFileCmd src dest w
  = Ok tt (said (RED +:+ "Copy failed." +:+ nl +:+ RESET) w).
Proof.
  intros He Hok Hc. unfold copyFileCmd.
  rewrite (bind_Ok _ _ w w true) by (unfold query; by rewrite He).
  simpl. rewrite (bind_Ok _ _ _ _ _ (lacks_passes _ _ _ _ Hok)).
  unfold try_catch.
  by rewrite (bind_Throw _ _ w w) by (unfold update_, update; by rewrite Hc).
Qed.

Lemma cp_failure_is_caught_witness :
  Fs.exists_ (disk empty_dir) "d" = true
  ∧ string_at (getPermission "d" (permissions empty_dir)).1 1 = Some "r"%char
  ∧ Fs.copy_file (disk empty_dir) "d" "e" = None
  ∧ copyFileCmd "d" "e" empty_dir
    = Ok tt (said (RED +:+ "Copy failed." +:+ nl +:+ RESET) empty_dir).
Proof.
  split; [reflexivity|]. split; [reflexivity|]. split; [reflexivity|].
  apply (cp_failure_is_caught "d" "e" empty_dir);
    [reflexivity|right; reflexivity|reflexivity].
Defined.

(** X19. When [rename] fails after the checks were passed, [mv] prints
    "Move failed." and leaves store and tree as they were: no entry is
    inserted for [SRC] or [DEST]. *)
Theorem mv_failure_is_caught (src dest : string) (w : world) :
  Fs.exists_ (disk w) src = true →
  sudoMode w = true
  ∨ string_at (getPermission src (permissions w)).1 2 = Some "w"%char →
  Fs.rename (disk w) src dest = None →
  moveFileCmd src dest w
  = Ok tt (said (RED +:+ "Move failed." +:+ nl +:+ RESET) w).
Proof.
  intros He Hok Hc. unfold moveFileCmd.
  rewrite (bind_Ok _ _ w w true) by (unfold query; by rewrite He).
  simpl. rewrite (bind_Ok _ _ _ _ _ (lacks_passes _ _ _ _ Hok)).
  unfold try_catch.
  by rewrite (bind_Throw _ _ w w) by (unfold update_, update; by rewrite Hc).
Qed.

Lemma mv_failure_is_caught_witness :
  Fs.exists_ (disk two_entries) "a.txt" = true
  ∧ string_at (getPermission "a.txt" (permissions two_entries)).1 2
    = Some "w"%char
  ∧ Fs.rename (disk two_entries) "a.txt" "d" = None
  ∧ moveFileCmd "a.txt" "d" two_entries
    = Ok tt (said (RED +:+ "Move failed." +:+ nl +:+ RESET) two_entries).
Proof.
  split; [reflexivity|]. split; [reflexivity|]. split; [reflexivity|].
  apply (mv_failure_is_caught "a.txt" "d" two_entries);
    [reflexivity|right; reflexivity|reflexivity].
Defined.

(** X20. A move of a listed name to another name, past the write check and
    with [rename] succeeding, carries the stored permission over to [DEST]
    and erases the entry of [SRC]. *)
Theorem mv_carries_the_entry (src dest v : string) (w : world)
    (t : gmap string node) :
  permissions w !! src = Some v →
  src ≠ dest →
  sudoMode w = true ∨ string_at v 2 = Some "w"%char →
  Fs.rename (disk w) src dest = Some t →
  ∃ w', moveFileCmd src dest w = Ok tt w'
        ∧ permissions w' !! dest = Some v
        ∧ permissions w' !! src = None
        ∧ disk w' = Fs.write_out t PERM_FILE (save_text (permissions w')).
Proof.
  intros Hv Hne Hok Hr. exists (moved_to src dest t w). split.
  { apply moveFileCmd_moves; [by eapply rename_exists| |done].
    apply lacks_passes. by rewrite (getPermission_present _ _ _ Hv). }
  cbn [moved_to permissions disk]. rewrite Hv. cbn [default].
  split; [|split; [apply lookup_delete_eq|done]].
  by rewrite lookup_delete_ne, lookup_insert_eq.
Qed.

Lemma mv_carries_the_entry_witness :
  permissions two_entries !! "a.txt" = Some "-rw-r--r--"
  ∧ Fs.rename (disk two_entries) "a.txt" "b.txt"
    = Some (<["b.txt" := File "hi"]> (delete "a.txt" (disk two_entries)))
  ∧ ∃ w', moveFileCmd "a.txt" "b.txt" two_entries = Ok tt w'
          ∧ permissions w' !! "b.txt" = Some "-rw-r--r--"
          ∧ permissions w' !! "a.txt" = None.
Proof.
  split; [reflexivity|]. split; [reflexivity|].
  destruct (mv_carries_the_entry "a.txt" "b.txt" "-rw-r--r--" two_entries
              (<["b.txt" := File "hi"]> (delete "a.txt" (disk two_entries))))
    as (w' & Hr & Hd & Hs & _);
    [reflexivity|discriminate|right; reflexivity|reflexivity|].
  exists w'. split; [exact Hr|]. split; [exact Hd|exact Hs].
Defined.

(** X21. Moving a name onto itself keeps the file and erases its entry:
    after [mv X X] the permission of [X] is the fallback again. *)
Theorem mv_onto_itself_erases_the_entry (X : string) (w : world) :
  Fs.exists_ (disk w) X = true →
  sudoMode w = true
  ∨ string_at (getPermission X (permissions w)).1 2 = Some "w"%char →
  ∃ w', moveFileCmd X X w = Ok tt w'
        ∧ permissions w' = delete X (permissions w)
        ∧ (getPermission X (permissions w')).1 = "-rw-r--r--"
        ∧ Fs.exists_ (disk w') X = true.
Proof.
  intros He Hok. exists (moved_to X X (disk w) w). split.
  { apply moveFileCmd_moves; [done|by apply lacks_passes|].
    unfold Fs.exists_ in He. apply bool_decide_eq_true in He as [n Hn].
    unfold Fs.rename. by rewrite Hn, String.eqb_refl. }
  cbn [moved_to permissions disk].
  assert (delete X (<[X := default EmptyString (permissions w !! X)]>
                      (permissions w)) = delete X (permissions w)) as ->.
  { apply map_eq. intros k. destruct (decide (k = X)) as [->|].
    - by rewrite !lookup_delete_eq.
    - by rewrite !lookup_delete_ne, lookup_insert_ne. }
  split; [done|]. split; [|by apply exists_write_out].
  by rewrite getPermission_absent by apply lookup_delete_eq.
Qed.

Lemma mv_onto_itself_erases_the_entry_witness :
  Fs.exists_ (disk two_entries) "a.txt" = true
  ∧ string_at (getPermission "a.txt" (permissions two_entries)).1 2
    = Some "w"%char
  ∧ ∃ w', moveFileCmd "a.txt" "a.txt" two_entries = Ok tt w'
          ∧ permissions w' !! "a.txt" = None
          ∧ Fs.exists_ (disk w') "a.txt" = true.
Proof.
  split; [reflexivity|]. split; [reflexivity|].
  destruct (mv_onto_itself_erases_the_entry "a.txt" two_entries)
    as (w' & Hr & Hp & _ & He); [reflexivity|right; reflexivity|].
  exists w'. split; [exact Hr|]. split; [|exact He].
  rewrite Hp. apply lookup_delete_eq.
Defined.

(** ** Lines and the loop *)

Lemma skipws_blanks (b s : string) :
  blanks b = true → skipws (b +:+ s) = skipws s.
Proof.
  induction b as [|c b IH]; [done|]. rewrite app_cons.
  cbn [blanks skipws]. intros [Hc Hb]%andb_prop. rewrite Hc. by apply IH.
Qed.

Lemma extract_blanks (b s : string) :
  blanks b = true → extract (b +:+ s) = extract s.
Proof. intros Hb. unfold extract. by rewrite skipws_blanks. Qed.

Lemma extract_only_blanks (b : string) : blanks b = true → extract b = None.
Proof.
  intros Hb. rewrite <-(app_nil_r b). by rewrite extract_blanks.
Qed.

Lemma boundary_blanks (b : string) : blanks b = true → boundary b.
Proof. destruct b as [|c b]; [done|]. simpl. by intros [? _]%andb_prop. Qed.

Lemma boundary_gap (g s : string) : gap g → boundary (g +:+ s).
Proof.
  intros [Hne Hg]. destruct g as [|c g]; [done|]. rewrite app_cons.
  simpl in *. by apply andb_prop in Hg as [? _].
Qed.

(** The token that follows a run of blanks is extracted whole, and the
    stream is left at the character after it. *)
Lemma extract_next (b t r : string) :
  blanks b = true → token t → boundary r →
  extract (b +:+ t +:+ r) = Some (t, r).
Proof. intros Hb Ht Hr. rewrite extract_blanks by done. by apply extract_token. Qed.

(** X22. A line is split at runs of whitespace, of any length and made of
    any of the six whitespace characters, into command and two arguments;
    whitespace before the first token and after the last is skipped. A
    line of whitespace only gives three empty strings, with one or two
    tokens the missing arguments are empty, and whatever follows the third
    token is dropped. *)
Theorem parse_takes_three_tokens
    (lead g1 g2 g3 trail cmd arg1 arg2 rest : string) :
  token cmd → token arg1 → token arg2 →
  blanks lead = true → gap g1 → gap g2 → gap g3 → blanks trail = true →
  parse lead = (EmptyString, EmptyString, EmptyString)
  ∧ parse (lead +:+ cmd +:+ trail) = (cmd, EmptyString, EmptyString)
  ∧ parse (lead +:+ cmd +:+ g1 +:+ arg1 +:+ trail) = (cmd, arg1, EmptyString)
  ∧ parse (lead +:+ cmd +:+ g1 +:+ arg1 +:+ g2 +:+ arg2 +:+ trail)
    = (cmd, arg1, arg2)
  ∧ parse (lead +:+ cmd +:+ g1 +:+ arg1 +:+ g2 +:+ arg2 +:+ g3 +:+ rest)
    = (cmd, arg1, arg2).
Proof.
  intros Hc H1 H2 Hl Hg1 Hg2 Hg3 Ht.
  pose proof (boundary_blanks _ Ht) as Hbt.
  pose proof (extract_only_blanks _ Ht) as Het.
  destruct Hg1 as [Hn1 Hb1], Hg2 as [Hn2 Hb2].
  assert (∀ s, boundary (g1 +:+ s)) as Hbg1 by (intros; by apply boundary_gap).
  assert (∀ s, boundary (g2 +:+ s)) as Hbg2 by (intros; by apply boundary_gap).
  assert (∀ s, boundary (g3 +:+ s)) as Hbg3 by (intros; by apply boundary_gap).
  unfold parse. repeat split.
  - by rewrite (extract_only_blanks _ Hl).
  - by rewrite (extract_next lead cmd trail), Het.
  - rewrite (extract_next lead cmd) by done.
    by rewrite (extract_next g1 arg1 trail), Het.
  - rewrite (extract_next lead cmd) by done.
    rewrite (extract_next g1 arg1) by done.
    by rewrite (extract_next g2 arg2 trail).
  - rewrite (extract_next lead cmd) by done.
    rewrite (extract_next g1 arg1) by done.
    by rewrite (extract_next g2 arg2).
Qed.

Lemma parse_takes_three_tokens_witness :
  token "chmod" ∧ token "a.txt" ∧ token "755"
  ∧ blanks (String "009" " ") = true
  ∧ gap (String "009" "") ∧ gap "  " ∧ gap (String "013" "")
  ∧ parse (String "009" " " +:+ "chmod" +:+ String "009" "" +:+ "a.txt"
             +:+ "  " +:+ "755" +:+ String "013" "" +:+ "and more")
    = ("chmod", "a.txt", "755").
Proof.
  assert (token "chmod" ∧ token "a.txt" ∧ token "755") as (Hc & H1 & H2).
  { repeat split; discriminate. }
  assert (gap (String "009" "") ∧ gap "  " ∧ gap (String "013" ""))
    as (Hg1 & Hg2 & Hg3).
  { repeat split; discriminate. }
  split; [exact Hc|]. split; [exact H1|]. split; [exact H2|].
  split; [reflexivity|].
  split; [exact Hg1|]. split; [exact Hg2|]. split; [exact Hg3|].
  apply (parse_takes_three_tokens (String "009" " ") (String "009" "") "  "
           (String "013" "") EmptyString "chmod" "a.txt" "755" "and more");
    (assumption || reflexivity).
Defined.

Lemma iteration_exit (line : string) (w : world) :
  (parse line).1.1 = "exit" →
  iteration line w = Ok false (said (prompt w) w).
Proof.
  intros H. rewrite iteration_unfold.
  destruct (parse line) as [[cmd arg1] arg2]. simpl in H. by subst cmd.
Qed.

Lemma loop_stops_at_exit (pre rest : list string) (line : string)
    (w : world) :
  (parse line).1.1 = "exit" →
  loop (pre ++ line :: rest) w = loop (pre ++ [line]) w.
Proof.
  intros H. revert w. induction pre as [|l pre IH]; intros w; simpl.
  - by rewrite !(bind_Ok _ _ _ _ _ (iteration_exit _ w H)).
  - unfold mbind, M_bind.
    destruct (iteration l w) as [[] w1| |]; [apply IH|done..].
Qed.

(** X23. Once a line whose first token is [exit] has been read, the
    program ends: the lines after it are never looked at, whatever they
    are, and have no effect on the result. *)
Theorem nothing_is_read_after_exit (pre rest : list string) (line : string)
    (w : world) :
  (parse line).1.1 = "exit" →
  main (pre ++ line :: rest) w = main (pre ++ [line]) w.
Proof.
  intros H. unfold main, mbind, M_bind.
  destruct (loadPermissions w) as [[] wa| |]; [|done..].
  destruct (banner wa) as [[] wb| |]; [|done..].
  by rewrite (loop_stops_at_exit _ rest).
Qed.

Lemma nothing_is_read_after_exit_witness :
  (parse "exit now").1.1 = "exit"
  ∧ main (["chmod a.txt 600"] ++ "exit now" :: ["del a.txt"; "mkdir d"])
         (start one_file home)
    = main (["chmod a.txt 600"] ++ ["exit now"]) (start one_file home).
Proof.
  split; [reflexivity|].
  apply (nothing_is_read_after_exit ["chmod a.txt 600"]
           ["del a.txt"; "mkdir d"] "exit now" (start one_file home)).
  reflexivity.
Defined.

Lemma not_known (cmd : string) :
  cmd ∉ known_commands →
  Forall (λ k, String.eqb cmd k = false) known_commands.
Proof.
  intros H. apply Forall_forall. intros k Hk.
  apply String.eqb_neq. by intros ->.
Qed.

(** X24. A line whose first token is none of the eleven commands, [cd]
    included although the help text lists it, prints "Unknown command."
    and changes nothing; [sudoMode] is false afterwards. *)
Theorem unknown_command_changes_nothing (input : string) (w : world) :
  (parse input).1.1 ∉ known_commands →
  (parse input).1.1 ≠ EmptyString →
  iteration input w
  = Ok true (World false (permissions w) (disk w) (cwd w)
               (stdout w +:+ prompt w +:+ RED +:+ "Unknown command." +:+ nl
                  +:+ RESET)).
Proof.
  intros Hk Hne. rewrite iteration_unfold.
  destruct (parse input) as [[cmd arg1] arg2]. cbn [fst] in *.
  apply not_known in Hk. apply String.eqb_neq in Hne.
  unfold known_commands in Hk.
  repeat match goal with
         | H : Forall _ (_ :: _) |- _ =>
             apply Forall_cons in H as [? H]
         end.
  unfold dispatch, mbind, M_bind.
  repeat match goal with
         | H : String.eqb cmd _ = false |- _ => rewrite H; clear H
         end.
  cbv [cout set_sudoMode mret M_ret said].
  cbn [sudoMode permissions disk cwd stdout]. by rewrite app_assoc.
Qed.

Lemma unknown_command_changes_nothing_witness :
  ((parse "cd docs").1.1 ∉ known_commands)
  ∧ (parse "cd docs").1.1 ≠ EmptyString
  ∧ ∃ w', iteration "cd docs" two_entries = Ok true w'
          ∧ cwd w' = cwd two_entries ∧ disk w' = disk two_entries.
Proof.
  assert ((parse "cd docs").1.1 = "cd") as Hcd by reflexivity.
  assert ((parse "cd docs").1.1 ∉ known_commands) as Hk.
  { rewrite Hcd. unfold known_commands.
    repeat (apply not_elem_of_cons; split; [discriminate|]).
    apply not_elem_of_nil. }
  split; [exact Hk|]. split; [discriminate|].
  eexists. split.
  - apply (unknown_command_changes_nothing "cd docs" two_entries Hk).
    discriminate.
  - split; reflexivity.
Defined.

(** ** Reading past the end of a permission string *)

(** X25. With [sudoMode] false, [del], [mv] and [cp] on an existing name
    whose permission is the empty string index that string beyond its
    end: the checks read [get(X)[2]] and [get(X)[1]] of a string of size
    0, which the language leaves undefined. *)
Theorem checks_on_empty_permission_are_undefined (X dest : string)
    (w : world) :
  Fs.exists_ (disk w) X = true →
  sudoMode w = false →
  (getPermission X (permissions w)).1 = EmptyString →
  deleteFile X w = Undefined
  ∧ moveFileCmd X dest w = Undefined
  ∧ copyFileCmd X dest w = Undefined.
Proof.
  intros He Hs Hp.
  assert (∀ i flag, (2 ≤ S i)%nat → lacks X i flag w = Undefined) as Hl.
  { intros i flag Hi. apply lacks_out_of_range; [done|]. rewrite Hp.
    destruct i as [|[|i]]; [lia|done..]. }
  repeat split.
  - unfold deleteFile.
    rewrite (bind_Ok _ _ w w true) by (unfold query; by rewrite He).
    simpl. apply bind_Undefined, Hl. lia.
  - unfold moveFileCmd.
    rewrite (bind_Ok _ _ w w true) by (unfold query; by rewrite He).
    simpl. apply bind_Undefined, Hl. lia.
  - unfold copyFileCmd.
    rewrite (bind_Ok _ _ w w true) by (unfold query; by rewrite He).
    simpl. apply bind_Undefined, Hl. lia.
Qed.

Lemma checks_on_empty_permission_are_undefined_witness :
  Fs.exists_ (disk lost_permission) "b.txt" = true
  ∧ sudoMode lost_permission = false
  ∧ (getPermission "b.txt" (permissions lost_permission)).1 = EmptyString
  ∧ deleteFile "b.txt" lost_permission = Undefined.
Proof.
  split; [reflexivity|]. split; [reflexivity|]. split; [reflexivity|].
  apply (checks_on_empty_permission_are_undefined "b.txt" "c.txt"
           lost_permission); reflexivity.
Defined.

(** ** A name without permission at the end of the file *)

Lemma load_loop_render_then (l : list (string * string)) (tail : string) :
  Forall (λ p, token p.1 ∧ token p.2) l →
  ∀ fuel m,
    load_loop (List.length l + fuel) (render l +:+ tail) m
    = load_loop fuel (skipws tail) (foldl (λ m p, <[p.1 := p.2]> m) m l).
Proof.
  induction 1 as [|[k v] l [Hk Hv] _ IH]; intros fuel m.
  - cbn [render List.length foldl]. rewrite app_nil_l.
    destruct fuel; [done|]. simpl. unfold extract.
    assert (skipws (skipws tail) = skipws tail) as ->; [|done].
    induction tail as [|c tail IHt]; [done|]. simpl.
    destruct (isspace c) eqn:Hc; [done|]. simpl. by rewrite Hc.
  - cbn [render List.length foldl fst snd plus load_loop].
    rewrite !app_assoc.
    rewrite (extract_token k), app_cons, app_nil_l by done.
    rewrite (extract_blank " "), (extract_token v) by done.
    change (nl +:+ render l +:+ tail) with (String "010" (render l +:+ tail)).
    rewrite load_loop_blank by done. apply IH.
Qed.

(** X26. A name at the end of the text that no permission follows is
    dropped by [loadPermissions]: the entries before it are loaded, no
    entry is made for the name, and nothing fails. This is what becomes of
    a line written for an empty permission string. *)
Theorem load_drops_a_trailing_name (l : list (string * string))
    (k blanks : string) (m0 : gmap string string) :
  Forall (λ p, token p.1 ∧ token p.2) l →
  token k →
  skipws blanks = EmptyString →
  load_text (render l +:+ k +:+ blanks) m0 = load_text (render l) m0.
Proof.
  intros Hl Hk Hb. unfold load_text.
  set (T := render l +:+ k +:+ blanks).
  rewrite (load_loop_fuel (String.length T)
             (List.length l + S (String.length T)) T) by lia.
  rewrite (load_loop_fuel (String.length (render l))
             (List.length l + String.length (render l)) (render l)) by lia.
  unfold T. rewrite (load_loop_render_then l (k +:+ blanks) Hl).
  pose proof (load_loop_render_then l EmptyString Hl
                (String.length (render l)) m0) as HR.
  rewrite app_nil_r in HR. rewrite HR. clear HR.
  rewrite (skipws_token k blanks Hk). cbn [load_loop skipws].
  assert (boundary blanks) as Hbd.
  { destruct blanks as [|c r]; [done|]. simpl in *.
    by destruct (isspace c). }
  rewrite (extract_token k blanks Hk Hbd).
  unfold extract at 1. rewrite Hb. cbn [word].
  by destruct (String.length (render l)).
Qed.

Lemma load_drops_a_trailing_name_witness :
  Forall (λ p, token p.1 ∧ token p.2) [("a.txt", "-rw-r--r--")]
  ∧ token "b.txt"
  ∧ skipws (" " +:+ nl) = EmptyString
  ∧ load_text (render [("a.txt", "-rw-r--r--")] +:+ "b.txt" +:+ " " +:+ nl) ∅
    = {[ "a.txt" := "-rw-r--r--" ]}.
Proof.
  assert (Forall (λ p : string * string, token p.1 ∧ token p.2)
            [("a.txt", "-rw-r--r--")]) as Hl.
  { repeat constructor; discriminate. }
  assert (token "b.txt") as Hk by (split; [discriminate|reflexivity]).
  split; [exact Hl|]. split; [exact Hk|]. split; [reflexivity|].
  rewrite (load_drops_a_trailing_name _ "b.txt" (" " +:+ nl) ∅ Hl Hk);
    reflexivity.
Defined.

(** ** More on single lines *)

(** X27. Whatever follows [sudo] on its line is ignored: the line only
    prints the notice, store and tree stay as they were and [sudoMode] is
    false again when the turn ends; a command written after [sudo] is not
    run. *)
Theorem sudo_ignores_the_rest_of_its_line (input : string) (w : world) :
  (parse input).1.1 = "sudo" →
  iteration input w
  = Ok true (World false (permissions w) (disk w) (cwd w)
               (stdout w +:+ prompt w +:+ YELLOW
                  +:+ "Sudo mode active (for one command)." +:+ RESET
                  +:+ nl)).
Proof.
  intros H. rewrite iteration_unfold.
  destruct (parse input) as [[cmd arg1] arg2]. cbn [fst] in H. subst cmd.
  cbv [dispatch String.eqb Ascii.eqb Bool.eqb mbind M_bind mret M_ret
       set_sudoMode cout said].
  cbn [sudoMode permissions disk cwd stdout]. by rewrite app_assoc.
Qed.

Lemma sudo_ignores_the_rest_of_its_line_witness :
  (parse "sudo del a.txt").1.1 = "sudo"
  ∧ ∃ w', iteration "sudo del a.txt" read_only = Ok true w'
          ∧ disk w' = disk read_only
          ∧ permissions w' = permissions read_only.
Proof.
  split; [reflexivity|]. eexists. split.
  - apply (sudo_ignores_the_rest_of_its_line "sudo del a.txt" read_only).
    reflexivity.
  - split; reflexivity.
Defined.

(** X28. Every command that takes a name looks for it first: on a name
    that does not exist [rmdir], [del], [chmod], [perm], [cp] and [mv]
    print their not-found line and do nothing else; no permission string
    is read and no entry is made. *)
Theorem missing_name_is_reported (name other : string) (w : world) :
  Fs.exists_ (disk w) name = false →
  removeDir name w = Ok tt (said (RED +:+ "Not found." +:+ nl +:+ RESET) w)
  ∧ deleteFile name w
    = Ok tt (said (RED +:+ "File not found." +:+ nl +:+ RESET) w)
  ∧ chmodFile name other w
    = Ok tt (said (RED +:+ "Not found." +:+ nl +:+ RESET) w)
  ∧ showPerm name w = Ok tt (said (RED +:+ "Not found." +:+ nl +:+ RESET) w)
  ∧ copyFileCmd name other w
    = Ok tt (said (RED +:+ "Source not found." +:+ nl +:+ RESET) w)
  ∧ moveFileCmd name other w
    = Ok tt (said (RED +:+ "Source not found." +:+ nl +:+ RESET) w).
Proof.
  intros He.
  repeat split;
    [unfold removeDir|unfold deleteFile|unfold chmodFile|unfold showPerm
    |unfold copyFileCmd|unfold moveFileCmd];
    by rewrite (bind_Ok _ _ w w false) by (unfold query; by rewrite He).
Qed.

Lemma missing_name_is_reported_witness :
  Fs.exists_ (disk lost_permission) "a.txt" = false
  ∧ moveFileCmd "a.txt" "b.txt" lost_permission
    = Ok tt (said (RED +:+ "Source not found." +:+ nl +:+ RESET)
                  lost_permission).
Proof.
  split; [reflexivity|].
  apply (missing_name_is_reported "a.txt" "b.txt" lost_permission).
  reflexivity.
Defined.

(** X29. [makeDir] catches nothing: when [create_directory] throws, as it
    does for an empty name or a missing parent directory, the exception
    leaves [makeDir] and the loop with store and tree unchanged, and the
    lines that follow are not read. *)
Theorem mkdir_failure_ends_the_loop (input : string) (rest : list string)
    (w : world) :
  (parse input).1.1 = "mkdir" →
  Fs.create_directory (disk w) (parse input).1.2 = None →
  makeDir (parse input).1.2 w = Throw w
  ∧ loop (input :: rest) w = Throw (said (prompt w) w).
Proof.
  intros Hcmd Hc. split.
  - unfold makeDir. apply bind_Throw. unfold update. by rewrite Hc.
  - cbn [loop]. apply bind_Throw. rewrite iteration_unfold.
    destruct (parse input) as [[cmd arg1] arg2]. cbn [fst snd] in *.
    subst cmd. apply bind_Throw. unfold dispatch. simpl.
    apply bind_Throw. unfold makeDir. apply bind_Throw.
    unfold update. cbn [said disk]. by rewrite Hc.
Qed.

Lemma mkdir_failure_ends_the_loop_witness :
  (parse "mkdir").1.1 = "mkdir"
  ∧ Fs.create_directory (disk two_entries) (parse "mkdir").1.2 = None
  ∧ loop ["mkdir"; "ls"] two_entries
    = Throw (said (prompt two_entries) two_entries).
Proof.
  split; [reflexivity|]. split; [reflexivity|].
  apply (mkdir_failure_ends_the_loop "mkdir" ["ls"] two_entries);
    reflexivity.
Defined.
